(** * Discord-video-stream: the media packetizer and codec selection

    A shallow embedding of [BaseMediaPacketizer] (RTP header, RTCP sender
    report, MTU chunking, wrapping counters), of [normalizeVideoCodec] and of
    the codec dispatch at the head of [streamLivestreamVideo], together with
    the properties stated about them.

    JavaScript numbers that hold integers are modelled as [Z].  The
    counters themselves stay below 2^32; a sum of a counter and an integer
    argument is exact in double arithmetic as long as it stays below 2^53,
    that is for arguments up to [2^53 - 2^32], and on that domain the
    integer arithmetic below is what the code computes.  [%] is the
    truncating remainder [Z.rem], [Math.floor (a / b)] on integers is
    [Z.div].  Methods of the class are
    computations in a state-and-exception monad over the object's fields: a
    throw leaves the mutations made before it in place, as in JavaScript. *)

From Stdlib Require Import ZArith QArith Qround Lia String Ascii.
From stdpp Require Import base tactics option list numbers.

Local Open Scope Z_scope.

(** ** Completions: a call returns normally or throws *)

Inductive js_error :=
  | RangeError (what : string)
  | TypeError (what : string)
  | Error (message : string).

Inductive completion (A : Type) :=
  | Normal (a : A)
  | Throw (e : js_error).
Arguments Normal {A} a.
Arguments Throw {A} e.

#[global] Instance completion_ret : MRet completion := λ A a, Normal a.
#[global] Instance completion_bind : MBind completion := λ A B f c,
  match c with Normal a => f a | Throw e => Throw e end.

(** ** Node.js [Buffer]: a list of octets *)

Definition Buffer := list Z.

Definition to_uint8 (v : Z) : Z := v mod 256.

(** A number handed to a buffer writer: an integer, or [NaN] (what
    arithmetic on [undefined] produces). *)
Inductive number :=
  | NaN
  | Int (z : Z).
Coercion Int : Z >-> number.

(** [Buffer.alloc n]: zero filled. *)
Definition alloc (n : nat) : Buffer := replicate n 0.

(** [Buffer.allocUnsafe n]: [n] octets of whatever the heap held. *)
Definition allocUnsafe (heap : nat → Z) (n : nat) : Buffer :=
  (λ i, to_uint8 (heap i)) <$> seq 0 n.

(** [buf[i] = v]: the value is reduced to an octet; an index past the end
    is ignored by a typed array. *)
Definition store (i : nat) (v : Z) (buf : Buffer) : Buffer :=
  <[i := to_uint8 v]> buf.

(** [buf[i] |= v]. *)
Definition store_or (i : nat) (v : Z) (buf : Buffer) : Buffer :=
  match buf !! i with
  | Some old => store i (Z.lor old v) buf
  | None => buf
  end.

(** The [n] low octets of [v], most significant first. *)
Fixpoint be_octets (n : nat) (v : Z) : list Z :=
  match n with
  | O => []
  | S k => to_uint8 (Z.shiftr v (8 * Z.of_nat k)) :: be_octets k v
  end.

Definition octets_of (n : nat) (v : number) : list Z :=
  match v with
  | NaN => replicate n 0
  | Int z => be_octets n z
  end.

(** Node's [checkInt]: the value must lie in [min, max] (a comparison with
    [NaN] is false, so [NaN] passes), and the field must fit the buffer. *)
Definition checkInt (v : number) (min max : Z) (buf : Buffer)
    (offset byteLength : nat) : completion unit :=
  match v with
  | Int z =>
      if (z >? max) || (z <? min) then Throw (RangeError "value") else
      if (length buf <? offset + byteLength)%nat then Throw (RangeError "offset")
      else Normal ()
  | NaN =>
      if (length buf <? offset + byteLength)%nat then Throw (RangeError "offset")
      else Normal ()
  end.

(** [buf.writeUIntBE(value, offset, byteLength)]. *)
Definition writeUIntBE (value : number) (offset byteLength : nat)
    (buf : Buffer) : completion Buffer :=
  checkInt value 0 (2 ^ (8 * Z.of_nat byteLength) - 1) buf offset byteLength ;;
  Normal (list_inserts offset (octets_of byteLength value) buf).

(** [buf.writeUInt32BE(value, offset)]. *)
Definition writeUInt32BE (value : number) (offset : nat) (buf : Buffer)
    : completion Buffer :=
  writeUIntBE value offset 4 buf.

(** [buf.writeInt16BE(value, offset)]: signed range, two's complement
    octets. *)
Definition writeInt16BE (value : number) (offset : nat) (buf : Buffer)
    : completion Buffer :=
  checkInt value (-32768) 32767 buf offset 2 ;;
  Normal (list_inserts offset (octets_of 2 value) buf).

(** [buf.subarray(0, n)] and [data.slice(i, j)] for [0 <= i <= j]. *)
Definition subarray {A} (n : nat) (buf : list A) : list A := take n buf.
Definition slice {A} (data : list A) (i j : nat) : list A :=
  take (j - i) (drop i data).

(** ** Constants of the module *)

Definition max_int16bit : Z := 2 ^ 16.
Definition max_int32bit : Z := 2 ^ 32.

(** [new Date("Jan 01 1900 GMT").getTime()]: 25567 days before the Unix
    epoch, in milliseconds. *)
Definition ntpEpoch : Z := - (25567 * 86400000).

(** ** The connection collaborator *)

(** Modelled from the spec: the [MediaUdp] connection, of which only the
    declarations are used here.  It owns the 32-byte session key, hands out
    one fresh 24-byte nonce per request ([getNewNonceBuffer]) and sends
    packets ([sendPacket]); a send failure propagates synchronously to the
    caller.  The nonce stream is left arbitrary, and so is the fate of each
    send: [sendFailure n] is the error the [n]-th attempt meets, if any.
    [sent] records the packets the transport took, oldest first. *)
Record MediaUdp := {
  secretkey : Buffer;
  nonceSource : nat → Buffer;
  noncesTaken : nat;
  sendFailure : nat → option js_error;
  sendAttempts : nat;
  sent : list Buffer
}.

Definition getNewNonceBuffer (udp : MediaUdp) : Buffer * MediaUdp :=
  (nonceSource udp (noncesTaken udp),
   {| secretkey := secretkey udp; nonceSource := nonceSource udp;
      noncesTaken := S (noncesTaken udp);
      sendFailure := sendFailure udp; sendAttempts := sendAttempts udp;
      sent := sent udp |}).

Definition sendPacket (packet : Buffer) (udp : MediaUdp)
    : completion unit * MediaUdp :=
  match sendFailure udp (sendAttempts udp) with
  | None =>
      (Normal (),
       {| secretkey := secretkey udp; nonceSource := nonceSource udp;
          noncesTaken := noncesTaken udp;
          sendFailure := sendFailure udp;
          sendAttempts := S (sendAttempts udp);
          sent := sent udp ++ [packet] |})
  | Some e =>
      (Throw e,
       {| secretkey := secretkey udp; nonceSource := nonceSource udp;
          noncesTaken := noncesTaken udp;
          sendFailure := sendFailure udp;
          sendAttempts := S (sendAttempts udp);
          sent := sent udp |})
  end.

(** The collaborator keeps its side of the contract: 32-byte key, 24-byte
    nonces. *)
Definition udp_ok (udp : MediaUdp) : Prop :=
  length (secretkey udp) = 32%nat ∧ ∀ n, length (nonceSource udp n) = 24%nat.

(** ** The packetizer object *)

Record BaseMediaPacketizer := {
  _payloadType : Z;
  _mtu : nat;
  _sequence : Z;
  _timestamp : Z;
  _totalBytes : Z;
  _prevTotalPackets : Z;
  _lastPacketTime : option Z;   (* [None]: still [undefined] *)
  _mediaUdp : MediaUdp;
  _extensionEnabled : bool
}.

Definition constructor (connection : MediaUdp) (payloadType : Z)
    (extensionEnabled : bool) : BaseMediaPacketizer :=
  {| _mediaUdp := connection;
     _payloadType := payloadType;
     _sequence := 0;
     _timestamp := 0;
     _totalBytes := 0;
     _prevTotalPackets := 0;
     _lastPacketTime := None;
     _mtu := 1200;
     _extensionEnabled := extensionEnabled |}.

Definition set_sequence (v : Z) (this : BaseMediaPacketizer) :=
  {| _payloadType := _payloadType this; _mtu := _mtu this; _sequence := v;
     _timestamp := _timestamp this; _totalBytes := _totalBytes this;
     _prevTotalPackets := _prevTotalPackets this;
     _lastPacketTime := _lastPacketTime this; _mediaUdp := _mediaUdp this;
     _extensionEnabled := _extensionEnabled this |}.

Definition set_timestamp (v : Z) (this : BaseMediaPacketizer) :=
  {| _payloadType := _payloadType this; _mtu := _mtu this;
     _sequence := _sequence this; _timestamp := v;
     _totalBytes := _totalBytes this;
     _prevTotalPackets := _prevTotalPackets this;
     _lastPacketTime := _lastPacketTime this; _mediaUdp := _mediaUdp this;
     _extensionEnabled := _extensionEnabled this |}.

Definition set_totalBytes (v : Z) (this : BaseMediaPacketizer) :=
  {| _payloadType := _payloadType this; _mtu := _mtu this;
     _sequence := _sequence this; _timestamp := _timestamp this;
     _totalBytes := v; _prevTotalPackets := _prevTotalPackets this;
     _lastPacketTime := _lastPacketTime this; _mediaUdp := _mediaUdp this;
     _extensionEnabled := _extensionEnabled this |}.

Definition set_prevTotalPackets (v : Z) (this : BaseMediaPacketizer) :=
  {| _payloadType := _payloadType this; _mtu := _mtu this;
     _sequence := _sequence this; _timestamp := _timestamp this;
     _totalBytes := _totalBytes this; _prevTotalPackets := v;
     _lastPacketTime := _lastPacketTime this; _mediaUdp := _mediaUdp this;
     _extensionEnabled := _extensionEnabled this |}.

Definition set_lastPacketTime (v : option Z) (this : BaseMediaPacketizer) :=
  {| _payloadType := _payloadType this; _mtu := _mtu this;
     _sequence := _sequence this; _timestamp := _timestamp this;
     _totalBytes := _totalBytes this;
     _prevTotalPackets := _prevTotalPackets this;
     _lastPacketTime := v; _mediaUdp := _mediaUdp this;
     _extensionEnabled := _extensionEnabled this |}.

Definition set_mediaUdp (v : MediaUdp) (this : BaseMediaPacketizer) :=
  {| _payloadType := _payloadType this; _mtu := _mtu this;
     _sequence := _sequence this; _timestamp := _timestamp this;
     _totalBytes := _totalBytes this;
     _prevTotalPackets := _prevTotalPackets this;
     _lastPacketTime := _lastPacketTime this; _mediaUdp := v;
     _extensionEnabled := _extensionEnabled this |}.

(** ** Methods: state and exceptions *)

Definition M (A : Type) : Type :=
  BaseMediaPacketizer → completion A * BaseMediaPacketizer.

#[global] Instance M_ret : MRet M := λ A a this, (Normal a, this).
#[global] Instance M_bind : MBind M := λ A B f m this,
  match m this with
  | (Normal a, this') => f a this'
  | (Throw e, this') => (Throw e, this')
  end.

Definition get : M BaseMediaPacketizer := λ this, (Normal this, this).
Definition modify (f : BaseMediaPacketizer → BaseMediaPacketizer) : M unit :=
  λ this, (Normal (), f this).
Definition lift {A} (c : completion A) : M A := λ this, (c, this).

Definition getNewSequence : M Z :=
  this ← get;
  modify (set_sequence (Z.rem (_sequence this + 1) max_int32bit)) ;;
  this ← get;
  mret (Z.rem (_sequence this) max_int16bit).

(** The sum is the code's for an integer [incrementBy] up to
    [2^53 - 2^32] in absolute value; past that the code's doubles round. *)
Definition incrementTimestamp (incrementBy : Z) : M unit :=
  this ← get;
  modify (set_timestamp (Z.rem (_timestamp this + incrementBy) max_int32bit)).

(** [sendFrame] of the base class; [now] is what [Date.now()] returns. *)
Definition sendFrame (now : Z) : M unit :=
  modify (set_lastPacketTime (Some now)).

Definition makeRtpHeader (ssrc : Z) (isLastPacket : bool) : M Buffer :=
  this ← get;
  let packetHeader := alloc 12 in
  let packetHeader :=
    store 0 (Z.lor (Z.shiftl 2 6)
                   (Z.shiftl (if _extensionEnabled this then 1 else 0) 4))
          packetHeader in
  let packetHeader := store 1 (_payloadType this) packetHeader in
  let packetHeader :=
    if isLastPacket then store_or 1 128 packetHeader else packetHeader in
  sequence ← getNewSequence;
  packetHeader ← lift (writeUIntBE (Int sequence) 2 2 packetHeader);
  this ← get;
  packetHeader ← lift (writeUIntBE (_timestamp this) 4 4 packetHeader);
  packetHeader ← lift (writeUIntBE ssrc 8 4 packetHeader);
  mret packetHeader.

(** [Math.round]: to the nearest integer, halves upwards. *)
Definition Math_round (x : Q) : Z := Qfloor (x + (1 # 2))%Q.

(** The two words of the 32.32 timestamp, as the report builder computes
    them from [_lastPacketTime]:
<<
    const ntpTimestamp = this._lastPacketTime - ntpEpoch;
    const ntpTimestampMsw = Math.floor(ntpTimestamp);
    const ntpTimestampLsw =
      Math.round((ntpTimestamp - ntpTimestampMsw) * max_int32bit);
>>
    [Date.now()] is an integral number of milliseconds, so every
    intermediate value is an integer below 2^53 and the rational arithmetic
    below is what the doubles compute.  With [_lastPacketTime] still
    [undefined] the difference is [NaN], and so are both words. *)
Definition ntpWords (lastPacketTime : option Z) : number * number :=
  match lastPacketTime with
  | None => (NaN, NaN)
  | Some t =>
      let ntpTimestamp := (inject_Z t - inject_Z ntpEpoch)%Q in
      let ntpTimestampMsw := Qfloor ntpTimestamp in
      let ntpTimestampLsw :=
        Math_round ((ntpTimestamp - inject_Z ntpTimestampMsw)
                    * inject_Z max_int32bit)%Q in
      (Int ntpTimestampMsw, Int ntpTimestampLsw)
  end.

(** ** libsodium *)

(** [crypto_secretbox_easy] is libsodium's: XSalsa20-Poly1305, whose output
    is the message length plus a 16-byte tag.  The cipher itself stays
    abstract; the wrapper rejects a nonce that is not 24 bytes or a key that
    is not 32. *)
Class Sodium := {
  secretbox : Buffer → Buffer → Buffer → Buffer;
  secretbox_length : ∀ m n k,
    length (secretbox m n k) = (length m + 16)%nat
}.

Section Packetizer.
Context `{Sodium}.
(** What freshly allocated, uninitialised buffers happen to contain. *)
Variable heap : nat → Z.

Definition crypto_secretbox_easy (message nonce key : Buffer)
    : completion Buffer :=
  if negb (length nonce =? 24)%nat then Throw (TypeError "invalid nonce length")
  else if negb (length key =? 32)%nat then Throw (TypeError "invalid key length")
  else Normal (secretbox message nonce key).

Definition makeRtcpSenderReport (ssrc : Z) : M Buffer :=
  this ← get;
  let packetHeader := allocUnsafe heap 8 in
  let packetHeader := store 0 0x80 packetHeader in
  let packetHeader := store 1 0xc8 packetHeader in
  let packetHeader := store 2 0x00 packetHeader in
  let packetHeader := store 3 0x06 packetHeader in
  packetHeader ← lift (writeUInt32BE ssrc 4 packetHeader);
  let senderReport := allocUnsafe (λ i, heap (8 + i)%nat) 20 in
  let '(ntpTimestampMsw, ntpTimestampLsw) :=
    ntpWords (_lastPacketTime this) in
  senderReport ← lift (writeUInt32BE ntpTimestampMsw 0 senderReport);
  senderReport ← lift (writeUInt32BE ntpTimestampLsw 4 senderReport);
  senderReport ← lift (writeUInt32BE (_timestamp this) 8 senderReport);
  senderReport ← lift (writeUInt32BE (_sequence this) 12 senderReport);
  senderReport ← lift (writeUInt32BE (_totalBytes this) 16 senderReport);
  let '(nonceBuffer, udp) := getNewNonceBuffer (_mediaUdp this) in
  modify (set_mediaUdp udp) ;;
  box ← lift (crypto_secretbox_easy senderReport nonceBuffer
                                     (secretkey udp));
  mret (concat [packetHeader; box; subarray 4 nonceBuffer]).

(** As for the timestamp, the byte total is the code's for an integer
    [bytesSent] up to [2^53 - 2^32] in absolute value. *)
Definition onFrameSent (bytesSent ssrc : Z) : M unit :=
  this ← get;
  modify (set_totalBytes
            (Z.rem (_totalBytes this + bytesSent) max_int32bit)) ;;
  this ← get;
  let packetCount := _sequence this in
  let packetCount :=
    if _prevTotalPackets this >? packetCount
    then packetCount + max_int32bit else packetCount in
  let interval := 2 ^ 7 in
  if packetCount / interval - _prevTotalPackets this / interval >? 0 then
    senderReport ← makeRtcpSenderReport ssrc;
    this ← get;
    let '(outcome, udp) := sendPacket senderReport (_mediaUdp this) in
    modify (set_mediaUdp udp) ;;
    lift outcome ;;
    this ← get;
    modify (set_prevTotalPackets (_sequence this))
  else mret ().

End Packetizer.

(** The chunking loop.  [fuel] bounds the number of iterations; with a
    positive MTU every iteration consumes at least one byte, so
    [length data] iterations are enough. *)
Fixpoint partition_loop {A} (fuel : nat) (data : list A) (mtu i len : nat)
    (out : list (list A)) : option (list (list A)) :=
  match len with
  | O => Some out
  | S _ =>
      match fuel with
      | O => None
      | S fuel' =>
          let size := Nat.min len mtu in
          partition_loop fuel' data mtu (i + size) (len - size)
                         (out ++ [slice data i (i + size)])
      end
  end.

Definition partitionDataMTUSizedChunks {A} (this : BaseMediaPacketizer)
    (data : list A) : option (list (list A)) :=
  partition_loop (length data) data (_mtu this) 0 (length data) [].

(** An entry of the extension table in [createHeaderExtension]. *)
Record extension := { id : Z; len : Z; val : Z }.

Definition extensionData (ext : extension) : completion Buffer :=
  let data := alloc 4 in
  let data := store 0 (Z.shiftl (Z.land (id ext) 15) 4) data in
  let data := store_or 0 (Z.land (len ext - 1) 15) data in
  writeUIntBE (val ext) 1 2 data.

Fixpoint extensionsData (extensions : list extension)
    : completion (list Buffer) :=
  match extensions with
  | [] => Normal []
  | ext :: rest =>
      data ← extensionData ext;
      more ← extensionsData rest;
      Normal (data :: more)
  end.

(** [createHeaderExtension] reads no field of the object. *)
Definition createHeaderExtension : completion Buffer :=
  let extensions := [ {| id := 5; len := 2; val := 0 |} ] in
  let profile := alloc 4 in
  let profile := store 0 0xBE profile in
  let profile := store 1 0xDE profile in
  profile ← writeInt16BE (Z.of_nat (length extensions)) 2 profile;
  extensionsData ← extensionsData extensions;
  Normal (concat (profile :: extensionsData)).

(** ** Codec names (utils.ts) *)

(** Codec identifiers are ASCII; [toUpperCase] and the case folding of the
    [i] flag act on the letters [a]..[z]. *)
Definition upcase (c : ascii) : ascii :=
  let n := nat_of_ascii c in
  if ((97 <=? n) && (n <=? 122))%nat then ascii_of_nat (n - 32) else c.

Fixpoint toUpperCase (s : string) : string :=
  match s with
  | EmptyString => EmptyString
  | String c s' => String (upcase c) (toUpperCase s')
  end.

(** The regular expressions of [normalizeVideoCodec] use literals,
    alternation, grouping and [?] only. *)
Inductive regex :=
  | Lit (w : string)
  | Alt (r1 r2 : regex)
  | Cat (r1 r2 : regex)
  | Opt (r : regex).

(** The (finite) set of words a pattern matches. *)
Fixpoint words (r : regex) : list string :=
  match r with
  | Lit w => [w]
  | Alt r1 r2 => words r1 ++ words r2
  | Cat r1 r2 =>
      w1 ← words r1; (λ w2, String.append w1 w2) <$> words r2
  | Opt r => EmptyString :: words r
  end.

(** [w] starts [s], letters compared after case folding. *)
Fixpoint prefix_i (w s : string) : bool :=
  match w, s with
  | EmptyString, _ => true
  | String a w', String b s' => Ascii.eqb (upcase a) (upcase b) && prefix_i w' s'
  | String _ _, EmptyString => false
  end.

Fixpoint infix_i (w s : string) : bool :=
  prefix_i w s ||
  match s with
  | EmptyString => false
  | String _ s' => infix_i w s'
  end.

(** [/r/i.test(s)]: some substring of [s] is matched by [r]. *)
Definition test_i (r : regex) (s : string) : bool :=
  existsb (λ w, infix_i w s) (words r).

(** [/H\.?264|AVC/i] *)
Definition re_h264 : regex :=
  Alt (Cat (Lit "H") (Cat (Opt (Lit ".")) (Lit "264"))) (Lit "AVC").
(** [/H\.?265|HEVC/i] *)
Definition re_h265 : regex :=
  Alt (Cat (Lit "H") (Cat (Opt (Lit ".")) (Lit "265"))) (Lit "HEVC").
(** [/VP(8|9)/i] *)
Definition re_vp : regex := Cat (Lit "VP") (Alt (Lit "8") (Lit "9")).
(** [/AV1/i] *)
Definition re_av1 : regex := Lit "AV1".

Definition normalizeVideoCodec (codec : string) : completion string :=
  if String.eqb codec "h264_mediacodec" || String.eqb codec "hevc_mediacodec"
  then Normal codec
  else if test_i re_h264 codec then Normal "H264"%string
  else if test_i re_h265 codec then Normal "H265"%string
  else if test_i re_vp codec then Normal (toUpperCase codec)
  else if test_i re_av1 codec then Normal "AV1"%string
  else Throw (Error (String.append "Unknown codec: " codec)).

(** ** The head of [streamLivestreamVideo] *)

(** What the executor of the returned promise does, as far as the stream is
    concerned: objects it creates and steps of the ffmpeg command.  The
    ffmpeg library calls themselves are taken to succeed. *)
Inductive event :=
  | NewVideoStream
  | NewH264NalSplitter
  | NewH265NalSplitter
  | NewIvfTransformer
  | VideoOutput (format : string)
  | PipeVideo
  | AudioOutput
  | CommandRun.

(** An exception thrown inside the executor rejects the promise. *)
Inductive promise :=
  | Pending
  | Rejected (reason : js_error).

(** The [switch] over the normalized codec. *)
Definition videoOutputFor (videoCodec : string) : completion event :=
  if String.eqb videoCodec "h264_mediacodec" || String.eqb videoCodec "H264"
  then Normal NewH264NalSplitter
  else if String.eqb videoCodec "hevc_mediacodec" || String.eqb videoCodec "H265"
  then Normal NewH265NalSplitter
  else if String.eqb videoCodec "VP8" then Normal NewIvfTransformer
  else Throw (Error "Codec not supported").

Definition outputFormat (videoCodec : string) : string :=
  if String.eqb videoCodec "VP8" then "ivf"%string
  else if String.eqb videoCodec "H265" then "hevc"%string
  else videoCodec.

Definition streamLivestreamVideo (streamOpts_videoCodec : string)
    (includeAudio : bool) : promise * list event :=
  let trace := [NewVideoStream] in
  match normalizeVideoCodec streamOpts_videoCodec with
  | Throw e => (Rejected e, trace)
  | Normal videoCodec =>
      match videoOutputFor videoCodec with
      | Throw e => (Rejected e, trace)
      | Normal videoOutput =>
          (Pending,
           trace ++ [videoOutput; VideoOutput (outputFormat videoCodec);
                     PipeVideo]
                 ++ (if includeAudio then [AudioOutput] else [])
                 ++ [CommandRun])
      end
  end.

(** * Vocabulary of the properties *)

(** The unsigned integer a run of octets denotes, most significant first. *)
Definition be_value (octets : list Z) : Z :=
  foldl (λ acc b, acc * 256 + b) 0 octets.

Definition is_octet (b : Z) : Prop := 0 ≤ b < 256.

Definition u32 (z : Z) : Prop := 0 ≤ z < max_int32bit.

Record counters_ok (this : BaseMediaPacketizer) : Prop := {
  sequence_u32 : u32 (_sequence this);
  timestamp_u32 : u32 (_timestamp this);
  totalBytes_u32 : u32 (_totalBytes this);
  prevTotalPackets_u32 : u32 (_prevTotalPackets this);
  mtu_1200 : _mtu this = 1200%nat
}.

(** The state after [n] calls of [getNewSequence]. *)
Definition afterSequences (n : nat) (this : BaseMediaPacketizer)
    : BaseMediaPacketizer :=
  Nat.iter n (λ p, (getNewSequence p).2) this.


(** ** Reachable states *)

Section Calls.
Context `{Sodium}.
Variable heap : nat → Z.

(** The public methods that touch the object's fields. *)
Inductive call :=
  | GetNewSequence
  | IncrementTimestamp (incrementBy : Z)
  | SendFrame (now : Z)
  | MakeRtpHeader (ssrc : Z) (isLastPacket : bool)
  | MakeRtcpSenderReport (ssrc : Z)
  | OnFrameSent (bytesSent ssrc : Z).

(** The object after a call, whether the call returned or threw. *)
Definition perform (c : call) (this : BaseMediaPacketizer)
    : BaseMediaPacketizer :=
  match c with
  | GetNewSequence => (getNewSequence this).2
  | IncrementTimestamp incrementBy => (incrementTimestamp incrementBy this).2
  | SendFrame now => (sendFrame now this).2
  | MakeRtpHeader ssrc isLastPacket => (makeRtpHeader ssrc isLastPacket this).2
  | MakeRtcpSenderReport ssrc => (makeRtcpSenderReport heap ssrc this).2
  | OnFrameSent bytesSent ssrc => (onFrameSent heap bytesSent ssrc this).2
  end.

(** Timestamp increments and byte counts are unsigned quantities. *)
Definition valid_call (c : call) : Prop :=
  match c with
  | IncrementTimestamp incrementBy => 0 ≤ incrementBy
  | OnFrameSent bytesSent _ => 0 ≤ bytesSent
  | _ => True
  end.

Inductive reachable : BaseMediaPacketizer → Prop :=
  | reachable_new connection payloadType extensionEnabled :
      reachable (constructor connection payloadType extensionEnabled)
  | reachable_call c this :
      reachable this → valid_call c → reachable (perform c this).

(** One data packet: a sequence number is consumed, then the send is
    reported. *)
Definition packetSent (bytesSent ssrc : Z) : M unit :=
  getNewSequence ;; onFrameSent heap bytesSent ssrc.

Fixpoint packetsSent (n : nat) (bytesSent ssrc : Z) : M unit :=
  match n with
  | O => mret ()
  | S k => packetSent bytesSent ssrc ;; packetsSent k bytesSent ssrc
  end.
End Calls.

(** The number of packets handed to the transport so far. *)
Definition packetsOnWire (this : BaseMediaPacketizer) : nat :=
  length (sent (_mediaUdp this)).

(** The report schedule in the words of the specification: [effective] is
    the raw count, plus 2^32 when the last reported count exceeds it; a
    report is due iff the two counts lie in different 128-packet
    intervals. *)
Definition effective (lastReportedPacketCount packetCount : Z) : Z :=
  if lastReportedPacketCount >? packetCount
  then packetCount + 2 ^ 32 else packetCount.

Definition fires (lastReportedPacketCount packetCount : Z) : Prop :=
  effective lastReportedPacketCount packetCount / 128
  - lastReportedPacketCount / 128 > 0.

(** The wall clocks whose distance to the NTP epoch fits the 32-bit
    integer part of the timestamp, and the unset clock. *)
Definition clock_encodable (lastPacketTime : option Z) : Prop :=
  match lastPacketTime with
  | None => True
  | Some t => 0 ≤ t - ntpEpoch < max_int32bit
  end.

(** The value a 32.32 fixed-point pair denotes. *)
Definition fixed_32_32 (msw lsw : Z) : Q :=
  (inject_Z msw + inject_Z lsw / inject_Z max_int32bit)%Q.

(** A connection for concrete runs: zero key, zero nonces, a transport
    that takes every packet. *)
Definition idleConnection : MediaUdp :=
  {| secretkey := replicate 32 0; nonceSource := λ _, replicate 24 0;
     noncesTaken := 0; sendFailure := λ _, None; sendAttempts := 0;
     sent := [] |}.

(** A stand-in cipher of the right shape for concrete runs: the message
    followed by a zero tag. *)
Definition plainBox : Sodium :=
  {| secretbox := λ m _ _, m ++ replicate 16 0;
     secretbox_length := λ m _ _, length_app m (replicate 16 0) |}.

(** A packetizer 11 packets short of the 2^32 wrap whose last report went
    out at the last 128-packet boundary below it. *)
Definition nearWrap : BaseMediaPacketizer :=
  set_prevTotalPackets (2 ^ 32 - 128)
    (set_sequence (2 ^ 32 - 11) (constructor idleConnection 101 false)).

(** ** Codec vocabulary *)

(** [w] occurs in [s], case ignored. *)
Definition occurs_i (w s : string) : Prop :=
  ∃ pre mid post,
    s = String.append pre (String.append mid post)
    ∧ toUpperCase mid = toUpperCase w.

(** The recognized codec names: the two MediaCodec encoders verbatim, and
    any name mentioning H.264/AVC, H.265/HEVC, VP8, VP9 or AV1. *)
Definition recognized (codec : string) : Prop :=
  codec = "h264_mediacodec"%string ∨ codec = "hevc_mediacodec"%string
  ∨ ∃ w, In w ["H264"; "H.264"; "AVC"; "H265"; "H.265"; "HEVC";
               "VP8"; "VP9"; "AV1"]%string ∧ occurs_i w codec.

(** The normalized codecs [streamLivestreamVideo] has a splitter for. *)
Definition streamable (videoCodec : string) : Prop :=
  In videoCodec ["H264"; "H265"; "VP8"; "h264_mediacodec";
                 "hevc_mediacodec"]%string.

(** ** The RTP header layout *)

(** What a call [makeRtpHeader ssrc isLastPacket] on [this] is expected to
    return: 12 bytes; version bits [10]; bit 4 of byte 0 the extension
    flag; byte 1 the marker (bit 7, set iff [isLastPacket]) over the
    payload type (low 7 bits); then the sequence number this call consumed
    (16 bits), the timestamp and the ssrc (32 bits each), big-endian. *)
Definition rtpHeader_layout (this : BaseMediaPacketizer) (ssrc : Z)
    (isLastPacket : bool) : Prop :=
  ∃ header sequence b0 b1,
    (makeRtpHeader ssrc isLastPacket this).1 = Normal header
    ∧ (getNewSequence this).1 = Normal sequence
    ∧ length header = 12%nat
    ∧ header !! 0%nat = Some b0
    ∧ header !! 1%nat = Some b1
    ∧ Z.shiftr b0 6 = 2
    ∧ Z.testbit b0 4 = _extensionEnabled this
    ∧ Z.testbit b1 7 = isLastPacket
    ∧ Z.land b1 127 = _payloadType this
    ∧ slice header 2 4 = be_octets 2 sequence
    ∧ be_value (slice header 2 4) = sequence
    ∧ slice header 4 8 = be_octets 4 (_timestamp this)
    ∧ be_value (slice header 4 8) = _timestamp this
    ∧ slice header 8 12 = be_octets 4 ssrc
    ∧ be_value (slice header 8 12) = ssrc.

(** Whether [normalizeVideoCodec] has a branch for [codec]. *)
Definition recognizedb (codec : string) : bool :=
  String.eqb codec "h264_mediacodec" || String.eqb codec "hevc_mediacodec"
  || test_i re_h264 codec || test_i re_h265 codec
  || test_i re_vp codec || test_i re_av1 codec.


(** * Vocabulary of the further properties *)

Section CallSequences.
Context `{Sodium}.
Variable heap : nat → Z.

(** The object after a sequence of calls, oldest first. *)
Definition performAll (calls : list call) (this : BaseMediaPacketizer)
    : BaseMediaPacketizer :=
  foldl (λ p c, perform heap c p) this calls.
End CallSequences.

(** What a call contributes to each counter: a sequence number is consumed
    by [getNewSequence] and by [makeRtpHeader]; the timestamp moves by the
    increment given; the byte total by the bytes reported sent. *)
Definition sequencesConsumed (c : call) : Z :=
  match c with
  | GetNewSequence | MakeRtpHeader _ _ => 1
  | _ => 0
  end.

Definition timestampAdvance (c : call) : Z :=
  match c with
  | IncrementTimestamp incrementBy => incrementBy
  | _ => 0
  end.

Definition bytesReported (c : call) : Z :=
  match c with
  | OnFrameSent bytesSent _ => bytesSent
  | _ => 0
  end.

Definition total (f : call → Z) (calls : list call) : Z :=
  foldr (λ c acc, f c + acc) 0 calls.

(** The plaintext of the sender info: NTP words, RTP timestamp, raw packet
    count, byte count, 32 bits each, big-endian. *)
Definition senderInfo (this : BaseMediaPacketizer) : Buffer :=
  octets_of 4 (ntpWords (_lastPacketTime this)).1
  ++ octets_of 4 (ntpWords (_lastPacketTime this)).2
  ++ be_octets 4 (_timestamp this)
  ++ be_octets 4 (_sequence this)
  ++ be_octets 4 (_totalBytes this).

(** A packet is a sender report by its length and its first four bytes. *)
Definition looks_like_report (packet : Buffer) : Prop :=
  length packet = 48%nat ∧ take 4 packet = [0x80; 0xC8; 0x00; 0x06].

(** Only [onFrameSent] hands packets to the transport, one at most. *)
Definition reportsPossible (c : call) : nat :=
  match c with
  | OnFrameSent _ _ => 1
  | _ => 0
  end.

(** What stays of a packetizer from [this] to a later [this']: its payload
    type, extension flag and MTU, the key and nonce stream of its
    connection; the transport log has grown by at most [budget] packets,
    all of them sender reports, and at least one nonce was drawn for
    each. *)
Definition carried_on (budget : nat) (this this' : BaseMediaPacketizer)
    : Prop :=
  _payloadType this' = _payloadType this
  ∧ _extensionEnabled this' = _extensionEnabled this
  ∧ _mtu this' = _mtu this
  ∧ secretkey (_mediaUdp this') = secretkey (_mediaUdp this)
  ∧ nonceSource (_mediaUdp this') = nonceSource (_mediaUdp this)
  ∧ ∃ reports,
      sent (_mediaUdp this') = sent (_mediaUdp this) ++ reports
      ∧ Forall looks_like_report reports
      ∧ (length reports ≤ budget)%nat
      ∧ (noncesTaken (_mediaUdp this) + length reports
         ≤ noncesTaken (_mediaUdp this'))%nat.

(** [codec] mentions one of the words [ws], case ignored. *)
Definition mentions (ws : list string) (codec : string) : Prop :=
  ∃ w, In w ws ∧ occurs_i w codec.

(** The transport takes every packet, now and later. *)
Definition transport_up (udp : MediaUdp) : Prop :=
  ∀ n, sendFailure udp n = None.

(** The integers a counter can be moved by without leaving the range in
    which the code's double arithmetic is exact. *)
Definition exact_step (z : Z) : Prop := 0 ≤ z ≤ 2 ^ 53 - 2 ^ 32.

(** Calls whose timestamp increment and byte count are such integers. *)
Definition exact_call (c : call) : Prop :=
  match c with
  | IncrementTimestamp incrementBy => exact_step incrementBy
  | OnFrameSent bytesSent _ => exact_step bytesSent
  | _ => True
  end.

Section RunVocabulary.
Context `{Sodium}.

(** The [k]-th sender report (counting from 0) of a packetizer that starts
    fresh, never records a frame time and reports after every packet of
    [bytesSent] bytes: it goes out when the packet count reaches
    [128 (k + 1)], with zero NTP words, timestamp 0, that packet count and
    the bytes sent so far, under the [k]-th nonce drawn. *)
Definition reportInRun (connection : MediaUdp) (ssrc bytesSent : Z) (k : nat)
    : Buffer :=
  let packets := 128 * (Z.of_nat k + 1) in
  let nonce := nonceSource connection (noncesTaken connection + k) in
  [0x80; 0xC8; 0x00; 0x06] ++ be_octets 4 ssrc
  ++ secretbox (replicate 8 0 ++ be_octets 4 0
                ++ be_octets 4 (packets mod 2 ^ 32)
                ++ be_octets 4 ((packets * bytesSent) mod 2 ^ 32))
       nonce (secretkey connection)
  ++ take 4 nonce.

(** That packetizer after [n] packets. *)
Definition afterPackets (connection : MediaUdp) (payloadType : Z)
    (extensionEnabled : bool) (ssrc bytesSent : Z) (n : nat)
    : BaseMediaPacketizer :=
  let reports := Z.to_nat (Z.of_nat n / 128) in
  {| _payloadType := payloadType;
     _mtu := 1200;
     _sequence := Z.of_nat n mod 2 ^ 32;
     _timestamp := 0;
     _totalBytes := (Z.of_nat n * bytesSent) mod 2 ^ 32;
     _prevTotalPackets := 128 * ((Z.of_nat n mod 2 ^ 32) / 128);
     _lastPacketTime := None;
     _mediaUdp :=
       {| secretkey := secretkey connection;
          nonceSource := nonceSource connection;
          noncesTaken := noncesTaken connection + reports;
          sendFailure := sendFailure connection;
          sendAttempts := sendAttempts connection + reports;
          sent := sent connection
                  ++ map (reportInRun connection ssrc bytesSent)
                         (seq 0 reports) |};
     _extensionEnabled := extensionEnabled |}.
End RunVocabulary.
(** * Properties *)

(** ** Buffers *)

Lemma to_uint8_octet v : is_octet (to_uint8 v).
Proof. unfold is_octet, to_uint8. apply Z.mod_pos_bound. lia. Qed.

Lemma to_uint8_small v : 0 ≤ v < 256 → to_uint8 v = v.
Proof. intros. unfold to_uint8. apply Z.mod_small. lia. Qed.

Lemma length_be_octets n v : length (be_octets n v) = n.
Proof. induction n as [|n IH]; simpl; [done | by rewrite IH]. Qed.

Lemma length_octets_of n v : length (octets_of n v) = n.
Proof. destruct v; simpl; [apply length_replicate | apply length_be_octets]. Qed.

Lemma be_octets_octet n v : Forall is_octet (be_octets n v).
Proof.
  induction n as [|n IH]; simpl; constructor; [apply to_uint8_octet | done].
Qed.

Lemma be_value_acc acc l :
  foldl (λ acc b, acc * 256 + b) acc l
  = acc * 256 ^ Z.of_nat (length l) + be_value l.
Proof.
  unfold be_value. revert acc. induction l as [|b l IH]; intros acc.
  - simpl. lia.
  - simpl foldl. rewrite (IH (acc * 256 + b)), (IH (0 * 256 + b)).
    simpl length. rewrite Nat2Z.inj_succ, Z.pow_succ_r by lia. lia.
Qed.

Lemma be_value_app l1 l2 :
  be_value (l1 ++ l2) = be_value l1 * 256 ^ Z.of_nat (length l2) + be_value l2.
Proof. unfold be_value at 1. rewrite foldl_app. apply be_value_acc. Qed.

(** Writing then reading a field gives the value back, reduced to the width
    of the field. *)
Lemma be_value_octets n v :
  be_value (be_octets n v) = v mod 2 ^ (8 * Z.of_nat n).
Proof.
  induction n as [|n IH].
  - simpl. by rewrite Z.mod_1_r.
  - change (be_octets (S n) v)
      with ([to_uint8 (Z.shiftr v (8 * Z.of_nat n))] ++ be_octets n v).
    rewrite be_value_app, IH, length_be_octets.
    unfold be_value at 1. simpl foldl. unfold to_uint8.
    rewrite Z.shiftr_div_pow2 by lia.
    replace (8 * Z.of_nat (S n)) with (8 * Z.of_nat n + 8) by lia.
    rewrite Z.pow_add_r by lia.
    replace (256 ^ Z.of_nat n) with (2 ^ (8 * Z.of_nat n)).
    2:{ rewrite Z.pow_mul_r by lia. reflexivity. }
    change (2 ^ 8) with 256.
    rewrite (Z.rem_mul_r v (2 ^ (8 * Z.of_nat n)) 256); [lia | | lia].
    apply Z.pow_nonzero; lia.
Qed.

Lemma be_value_octets_small n v :
  0 ≤ v < 2 ^ (8 * Z.of_nat n) → be_value (be_octets n v) = v.
Proof. intros. rewrite be_value_octets. by apply Z.mod_small. Qed.

Lemma writeUIntBE_Int (z : Z) offset n buf :
  0 ≤ z < 2 ^ (8 * Z.of_nat n) → (offset + n ≤ length buf)%nat →
  writeUIntBE (Int z) offset n buf
  = Normal (list_inserts offset (be_octets n z) buf).
Proof.
  intros Hz Hlen. unfold writeUIntBE, checkInt.
  replace (z >? 2 ^ (8 * Z.of_nat n) - 1) with false by lia.
  replace (z <? 0) with false by lia. simpl.
  replace (length buf <? offset + n)%nat with false; [done|].
  symmetry. apply Nat.ltb_ge. lia.
Qed.

Lemma writeUIntBE_NaN offset n buf :
  (offset + n ≤ length buf)%nat →
  writeUIntBE NaN offset n buf = Normal (list_inserts offset (replicate n 0) buf).
Proof.
  intros Hlen. unfold writeUIntBE, checkInt.
  replace (length buf <? offset + n)%nat with false; [done|].
  symmetry. apply Nat.ltb_ge. lia.
Qed.

(** An integer outside the unsigned range of the field makes the writer
    throw, and nothing is written. *)
Lemma writeUIntBE_out_of_range (z : Z) offset n buf :
  2 ^ (8 * Z.of_nat n) ≤ z ∨ z < 0 →
  writeUIntBE (Int z) offset n buf = Throw (RangeError "value").
Proof.
  intros Hz. unfold writeUIntBE, checkInt.
  destruct Hz.
  - replace (z >? 2 ^ (8 * Z.of_nat n) - 1) with true by lia. done.
  - replace (z <? 0) with true by lia. by rewrite orb_true_r.
Qed.

(** ** The wrapping counters *)

Lemma rem_u32 z : 0 ≤ z → u32 (Z.rem z max_int32bit).
Proof.
  intros. unfold u32. rewrite Z.rem_mod_nonneg by (unfold max_int32bit; lia).
  apply Z.mod_pos_bound. unfold max_int32bit. lia.
Qed.

Lemma getNewSequence_eq this :
  getNewSequence this
  = (Normal (Z.rem (Z.rem (_sequence this + 1) max_int32bit) max_int16bit),
     set_sequence (Z.rem (_sequence this + 1) max_int32bit) this).
Proof. reflexivity. Qed.

Lemma incrementTimestamp_eq incrementBy this :
  incrementTimestamp incrementBy this
  = (Normal (),
     set_timestamp (Z.rem (_timestamp this + incrementBy) max_int32bit) this).
Proof. reflexivity. Qed.

Lemma afterSequences_S n this :
  afterSequences (S n) this
  = set_sequence (Z.rem (_sequence (afterSequences n this) + 1) max_int32bit)
                 (afterSequences n this).
Proof. reflexivity. Qed.

Lemma afterSequences_sequence connection payloadType extensionEnabled n :
  _sequence (afterSequences n (constructor connection payloadType extensionEnabled))
  = Z.of_nat n mod max_int32bit.
Proof.
  induction n as [|n IH].
  - reflexivity.
  - rewrite afterSequences_S.
    change (_sequence (set_sequence ?v ?p)) with v. rewrite IH.
    rewrite Z.rem_mod_nonneg.
    + rewrite Zplus_mod_idemp_l. f_equal. lia.
    + pose proof (Z.mod_pos_bound (Z.of_nat n) max_int32bit).
      unfold max_int32bit in *. lia.
    + unfold max_int32bit. lia.
Qed.

(** C3. On a freshly constructed packetizer the counter starts at 0; after
    [n] calls of [getNewSequence] it equals [n mod 2^32]; the next call, the
    [(n+1)]-th, returns [((n+1) mod 2^32) mod 65536], which is the counter
    it has just incremented, truncated to 16 bits; and each call moves the
    counter up by one or wraps it from [2^32 - 1] to 0. *)
Theorem getNewSequence_counts connection payloadType extensionEnabled (n : nat) :
  let fresh := constructor connection payloadType extensionEnabled in
  let before := afterSequences n fresh in
  let after := afterSequences (S n) fresh in
  _sequence fresh = 0
  ∧ _sequence before = Z.of_nat n mod 2 ^ 32
  ∧ (getNewSequence before).1
    = Normal ((Z.of_nat (S n) mod 2 ^ 32) mod 65536)
  ∧ (getNewSequence before).1 = Normal (_sequence after mod 65536)
  ∧ (getNewSequence before).2 = after
  ∧ (_sequence after = _sequence before + 1
     ∨ (_sequence before = 2 ^ 32 - 1 ∧ _sequence after = 0)).
Proof.
  intros fresh before after.
  pose proof (afterSequences_sequence connection payloadType extensionEnabled n)
    as Hn.
  pose proof (afterSequences_sequence connection payloadType extensionEnabled (S n))
    as HSn.
  fold fresh in Hn, HSn. fold before in Hn. fold after in HSn.
  assert (Hstep : _sequence after = Z.rem (_sequence before + 1) max_int32bit)
    by reflexivity.
  assert (Hpos : 0 ≤ _sequence after < 2 ^ 32).
  { rewrite HSn. apply Z.mod_pos_bound. unfold max_int32bit. lia. }
  assert (Hret : (getNewSequence before).1
                 = Normal (_sequence after mod 65536)).
  { rewrite getNewSequence_eq. simpl fst. rewrite <- Hstep.
    f_equal. apply Z.rem_mod_nonneg; unfold max_int16bit; lia. }
  repeat split; try done.
  - rewrite Hret. by rewrite HSn.
  - assert (Hb : 0 ≤ _sequence before < 2 ^ 32).
    { rewrite Hn. apply Z.mod_pos_bound. unfold max_int32bit. lia. }
    rewrite Hstep. unfold max_int32bit.
    destruct (decide (_sequence before = 2 ^ 32 - 1)) as [->|Hne].
    + right. split; reflexivity.
    + left. apply Z.rem_small. lia.
Qed.

(** C10. [makeRtpHeader] changes the sequence counter and nothing else,
    whether it returns or throws: timestamp, byte total, last reported
    packet count, last-send wall clock, payload type, MTU, extension flag
    (and the connection) are as before.  [incrementTimestamp] changes the
    timestamp and nothing else. *)
Theorem makeRtpHeader_incrementTimestamp_frame ssrc isLastPacket incrementBy this :
  let this' := (makeRtpHeader ssrc isLastPacket this).2 in
  let this'' := (incrementTimestamp incrementBy this).2 in
  (this' = set_sequence (_sequence this') this
   ∧ _timestamp this' = _timestamp this
   ∧ _totalBytes this' = _totalBytes this
   ∧ _prevTotalPackets this' = _prevTotalPackets this
   ∧ _lastPacketTime this' = _lastPacketTime this
   ∧ _payloadType this' = _payloadType this
   ∧ _mtu this' = _mtu this
   ∧ _extensionEnabled this' = _extensionEnabled this)
  ∧ (this'' = set_timestamp (_timestamp this'') this
     ∧ _sequence this'' = _sequence this
     ∧ _totalBytes this'' = _totalBytes this
     ∧ _prevTotalPackets this'' = _prevTotalPackets this
     ∧ _lastPacketTime this'' = _lastPacketTime this
     ∧ _payloadType this'' = _payloadType this
     ∧ _mtu this'' = _mtu this
     ∧ _extensionEnabled this'' = _extensionEnabled this).
Proof.
  intros this' this''.
  assert (H' : this'
               = set_sequence (Z.rem (_sequence this + 1) max_int32bit) this).
  { subst this'. unfold makeRtpHeader, mbind, M_bind, get, lift, mret, M_ret.
    rewrite getNewSequence_eq.
    repeat match goal with
           | |- context [writeUIntBE ?v ?o ?n ?b] =>
               destruct (writeUIntBE v o n b); simpl
           end; reflexivity. }
  assert (H'' : this''
                = set_timestamp
                    (Z.rem (_timestamp this + incrementBy) max_int32bit) this)
    by reflexivity.
  rewrite H', H''. repeat split.
Qed.

(** C7. [createHeaderExtension] returns 8 bytes: the magic [0xBE 0xDE], the
    big-endian 16-bit extension count 1, then one element whose first byte
    carries id 5 in its high nibble and the length code [2 - 1 = 1] in its
    low nibble, followed by three zero bytes. *)
Theorem createHeaderExtension_layout :
  ∃ buf b,
    createHeaderExtension = Normal buf
    ∧ length buf = 8%nat
    ∧ take 2 buf = [0xBE; 0xDE]
    ∧ slice buf 2 4 = be_octets 2 1
    ∧ be_value (slice buf 2 4) = 1
    ∧ buf !! 4%nat = Some b
    ∧ Z.shiftr b 4 = 5
    ∧ Z.land b 15 = 2 - 1
    ∧ drop 5 buf = [0; 0; 0].
Proof. exists [0xBE; 0xDE; 0; 1; 0x51; 0; 0; 0], 0x51. repeat split. Qed.

(** ** The chunker *)

Lemma slice_take_drop {A} (data : list A) i size :
  slice data i (i + size) = take size (drop i data).
Proof. unfold slice. f_equal. lia. Qed.

Lemma partition_loop_spec {A} (data : list A) mtu :
  (0 < mtu)%nat →
  ∀ fuel i len out,
    (len ≤ fuel)%nat → (i + len = length data)%nat →
    ∃ chunks,
      partition_loop fuel data mtu i len out = Some (out ++ chunks)
      ∧ concat chunks = drop i data
      ∧ Forall (λ c, 0 < length c ≤ mtu)%nat chunks
      ∧ (∀ k c, chunks !! k = Some c → (S k < length chunks)%nat →
                length c = mtu).
Proof.
  intros Hmtu. induction fuel as [|fuel IH]; intros i len out Hfuel Hlen.
  - assert (len = 0%nat) as -> by lia. exists []. simpl.
    rewrite app_nil_r, drop_ge by lia. repeat split; [constructor|].
    intros k c Hk. by rewrite lookup_nil in Hk.
  - destruct len as [|len'].
    + exists []. simpl. rewrite app_nil_r, drop_ge by lia.
      repeat split; [constructor|].
      intros k c Hk. by rewrite lookup_nil in Hk.
    + set (len := S len') in *.
      set (size := Nat.min len mtu).
      assert (Hsize : (0 < size ≤ len)%nat) by (subst size len; lia).
      destruct (IH (i + size)%nat (len - size)%nat
                   (out ++ [slice data i (i + size)]))
        as (chunks & Hrun & Hcat & Hall & Hfull); [lia | lia |].
      exists (slice data i (i + size) :: chunks).
      assert (Hc : length (slice data i (i + size)) = size).
      { rewrite slice_take_drop, length_take, length_drop. lia. }
      split; [|split; [|split]].
      * change (partition_loop (S fuel) data mtu i len out)
          with (partition_loop fuel data mtu (i + size) (len - size)
                  (out ++ [slice data i (i + size)])).
        rewrite Hrun, <- app_assoc. reflexivity.
      * simpl. rewrite Hcat, slice_take_drop.
        rewrite <- (take_drop size (drop i data)) at 2.
        by rewrite drop_drop.
      * constructor; [|done]. rewrite Hc. subst size. lia.
      * intros [|k] c Hk Hlast; simpl in Hk, Hlast.
        -- injection Hk as <-. rewrite Hc.
           destruct chunks as [|c' chunks']; [simpl in Hlast; lia|].
           assert (Hrest : drop (i + size) data ≠ []).
           { rewrite <- Hcat. simpl. inversion Hall as [|?? Hc' _]; subst.
             destruct c'; [simpl in Hc'; lia | done]. }
           assert ((i + size < length data)%nat).
           { destruct (decide (i + size < length data)%nat); [done|].
             exfalso. apply Hrest. apply drop_ge. lia. }
           subst size. lia.
        -- apply (Hfull k c Hk). lia.
Qed.

(** ** Reachable packetizers keep their counters in range *)

Ltac run :=
  unfold mbind, M_bind, mret, M_ret, get, modify, lift; simpl.

Lemma set_mediaUdp_same this : set_mediaUdp (_mediaUdp this) this = this.
Proof. by destruct this. Qed.

Section Reachability.
Context `{Sodium}.
Variable heap : nat → Z.

Lemma makeRtpHeader_state ssrc isLastPacket this :
  (makeRtpHeader ssrc isLastPacket this).2
  = set_sequence (Z.rem (_sequence this + 1) max_int32bit) this.
Proof.
  unfold makeRtpHeader, mbind, M_bind, get, lift, mret, M_ret.
  rewrite getNewSequence_eq.
  repeat match goal with
         | |- context [writeUIntBE ?v ?o ?n ?b] =>
             destruct (writeUIntBE v o n b); simpl
         end; reflexivity.
Qed.

(** The report builder touches nothing but the connection (it draws a
    nonce), and not even that when a field write throws. *)
Lemma makeRtcpSenderReport_state ssrc this :
  ∃ udp, (makeRtcpSenderReport heap ssrc this).2 = set_mediaUdp udp this
         ∧ sent udp = sent (_mediaUdp this).
Proof.
  unfold makeRtcpSenderReport, mbind, M_bind, get, lift, mret, M_ret, modify.
  destruct (ntpWords (_lastPacketTime this)) as [msw lsw].
  repeat match goal with
         | |- context [writeUInt32BE ?v ?o ?b] =>
             destruct (writeUInt32BE v o b); simpl;
             [| exists (_mediaUdp this);
                by rewrite set_mediaUdp_same]
         end.
  destruct (crypto_secretbox_easy _ _ _); simpl; eauto.
Qed.

(** [onFrameSent], step by step. *)
Lemma onFrameSent_eq bytesSent ssrc this :
  onFrameSent heap bytesSent ssrc this
  = let this1 :=
      set_totalBytes (Z.rem (_totalBytes this + bytesSent) max_int32bit) this in
    if (if _prevTotalPackets this >? _sequence this
        then _sequence this + max_int32bit else _sequence this) / 2 ^ 7
       - _prevTotalPackets this / 2 ^ 7 >? 0
    then
      match makeRtcpSenderReport heap ssrc this1 with
      | (Throw e, this2) => (Throw e, this2)
      | (Normal report, this2) =>
          match sendPacket report (_mediaUdp this2) with
          | (Normal _, udp) =>
              (Normal (),
               set_prevTotalPackets (_sequence this2) (set_mediaUdp udp this2))
          | (Throw e, udp) => (Throw e, set_mediaUdp udp this2)
          end
      end
    else (Normal (), this1).
Proof.
  unfold onFrameSent, mbind, M_bind, get, lift, mret, M_ret, modify.
  cbv zeta. simpl _sequence. simpl _prevTotalPackets.
  destruct (_ >? 0); [|reflexivity].
  destruct (makeRtcpSenderReport heap ssrc _) as [[report|e] this2];
    [|reflexivity].
  destruct (sendPacket report (_mediaUdp this2)) as [[[]|e] udp]; reflexivity.
Qed.

Lemma sendPacket_udp packet udp :
  secretkey (sendPacket packet udp).2 = secretkey udp
  ∧ nonceSource (sendPacket packet udp).2 = nonceSource udp
  ∧ noncesTaken (sendPacket packet udp).2 = noncesTaken udp
  ∧ sendFailure (sendPacket packet udp).2 = sendFailure udp
  ∧ sendAttempts (sendPacket packet udp).2 = S (sendAttempts udp)
  ∧ sent (sendPacket packet udp).2
    = match (sendPacket packet udp).1 with
      | Normal _ => sent udp ++ [packet]
      | Throw _ => sent udp
      end.
Proof. unfold sendPacket. destruct (sendFailure udp _); repeat split. Qed.

Lemma onFrameSent_counters bytesSent ssrc this :
  let this' := (onFrameSent heap bytesSent ssrc this).2 in
  _sequence this' = _sequence this
  ∧ _timestamp this' = _timestamp this
  ∧ _totalBytes this' = Z.rem (_totalBytes this + bytesSent) max_int32bit
  ∧ (_prevTotalPackets this' = _prevTotalPackets this
     ∨ _prevTotalPackets this' = _sequence this)
  ∧ _mtu this' = _mtu this.
Proof.
  rewrite onFrameSent_eq. cbv zeta.
  destruct (_ >? 0); [|by auto 10].
  match goal with
  | |- context [makeRtcpSenderReport heap ssrc ?p] =>
      destruct (makeRtcpSenderReport_state ssrc p) as (udp & Hst & _);
      destruct (makeRtcpSenderReport heap ssrc p) as [[r|e] p'] eqn:Hrun
  end; simpl in Hst; subst; simpl; auto 10.
  destruct (sendPacket r udp) as [[[]|e] udp']; simpl; auto 10.
Qed.

Lemma perform_counters_ok c this :
  valid_call c → counters_ok this → counters_ok (perform heap c this).
Proof.
  intros Hc [Hs Ht Hb Hp Hm].
  destruct c as [|incrementBy|now|ssrc isLastPacket|ssrc|bytesSent ssrc];
    simpl in Hc; unfold perform.
  - rewrite getNewSequence_eq. simpl.
    constructor; simpl; try done. apply rem_u32. unfold u32 in Hs. lia.
  - constructor; simpl; try done. apply rem_u32. unfold u32 in Ht. lia.
  - constructor; simpl; done.
  - rewrite makeRtpHeader_state.
    constructor; simpl; try done. apply rem_u32. unfold u32 in Hs. lia.
  - destruct (makeRtcpSenderReport_state ssrc this) as (udp & -> & _).
    constructor; simpl; done.
  - destruct (onFrameSent_counters bytesSent ssrc this)
      as (Es & Et & Eb & Ep & Em).
    constructor.
    + by rewrite Es.
    + by rewrite Et.
    + rewrite Eb. apply rem_u32. unfold u32 in Hb. lia.
    + destruct Ep as [-> | ->]; done.
    + by rewrite Em.
Qed.

Lemma reachable_counters_ok this : reachable heap this → counters_ok this.
Proof.
  induction 1 as [connection payloadType extensionEnabled | c this _ IH Hc].
  - constructor; simpl; unfold u32, max_int32bit; try lia; done.
  - by apply perform_counters_ok.
Qed.

(** C5. On every reachable packetizer and every input, the chunker returns
    chunks that concatenate to the input, each at most the MTU (1200) long
    and each but possibly the last exactly the MTU long; the empty input
    gives no chunk; the result is the same on every reachable packetizer,
    whatever its counters (the chunker returns no new state). *)
Theorem partitionDataMTUSizedChunks_spec {A} (this : BaseMediaPacketizer)
    (data : list A) :
  reachable heap this →
  ∃ chunks,
    partitionDataMTUSizedChunks this data = Some chunks
    ∧ concat chunks = data
    ∧ Forall (λ c, length c ≤ 1200)%nat chunks
    ∧ (∀ k c, chunks !! k = Some c → (S k < length chunks)%nat →
              length c = 1200%nat)
    ∧ (data = [] → chunks = [])
    ∧ (∀ that, reachable heap that →
               partitionDataMTUSizedChunks that data = Some chunks).
Proof.
  intros Hreach.
  pose proof (mtu_1200 _ (reachable_counters_ok _ Hreach)) as Hmtu.
  destruct (partition_loop_spec data 1200 ltac:(lia) (length data) 0%nat
              (length data) [] ltac:(lia) ltac:(lia))
    as (chunks & Hrun & Hcat & Hall & Hfull).
  exists chunks. unfold partitionDataMTUSizedChunks. rewrite Hmtu.
  repeat split; try done.
  - eapply List.Forall_impl; [|exact Hall]. simpl. intros c Hc. lia.
  - intros ->. simpl in Hrun. by injection Hrun as <-.
  - intros that Hthat.
    by rewrite (mtu_1200 _ (reachable_counters_ok _ Hthat)).
Qed.
End Reachability.

(** C5 at a fresh packetizer and a 1201-byte payload: the chunks are found
    and concatenate to the payload. *)
Lemma partitionDataMTUSizedChunks_spec_witness :
  ∃ chunks,
    partitionDataMTUSizedChunks (constructor idleConnection 101 false)
                                (replicate 1201 0)
    = Some chunks
    ∧ concat chunks = replicate 1201 0.
Proof.
  destruct (@partitionDataMTUSizedChunks_spec plainBox (λ _, 0) Z
              (constructor idleConnection 101 false) (replicate 1201 0)
              (reachable_new (λ _, 0) idleConnection 101 false))
    as (chunks & Hrun & Hcat & _).
  exists chunks. split; [exact Hrun | exact Hcat].
Defined.

(** ** The sender report *)

Lemma ntpWords_Some t : ntpWords (Some t) = (Int (t - ntpEpoch), Int 0).
Proof.
  unfold ntpWords, Math_round.
  assert (Hd : (inject_Z t - inject_Z ntpEpoch == inject_Z (t - ntpEpoch))%Q).
  { unfold Qminus, Z.sub. by rewrite inject_Z_plus, inject_Z_opp. }
  assert (Hmsw : Qfloor (inject_Z t - inject_Z ntpEpoch) = t - ntpEpoch).
  { rewrite Hd. apply Qfloor_Z. }
  rewrite Hmsw. f_equal. f_equal.
  assert (Hfrac : ((inject_Z t - inject_Z ntpEpoch - inject_Z (t - ntpEpoch))
                   * inject_Z max_int32bit + (1 # 2) == 1 # 2)%Q).
  { rewrite Hd. ring. }
  rewrite Hfrac. reflexivity.
Qed.

Lemma writeUInt32BE_returns (v : number) offset buf :
  match v with NaN => True | Int z => u32 z end →
  (offset + 4 ≤ length buf)%nat →
  ∃ buf', writeUInt32BE v offset buf = Normal buf' ∧ length buf' = length buf.
Proof.
  intros Hv Hlen. unfold writeUInt32BE. destruct v as [|z].
  - rewrite writeUIntBE_NaN by done. eexists; split; [done|].
    apply length_inserts.
  - rewrite writeUIntBE_Int by done. eexists; split; [done|].
    apply length_inserts.
Qed.

Section SenderReport.
Context `{Sodium}.
Variable heap : nat → Z.

Lemma crypto_secretbox_easy_returns message nonce key :
  length nonce = 24%nat → length key = 32%nat →
  crypto_secretbox_easy message nonce key
  = Normal (secretbox message nonce key).
Proof. intros Hn Hk. unfold crypto_secretbox_easy. by rewrite Hn, Hk. Qed.

(** When the clock is unset or encodable, the report is built: 8 bytes of
    header, the boxed sender info, and the nonce prefix. *)
Lemma makeRtcpSenderReport_returns ssrc this :
  u32 ssrc → counters_ok this → udp_ok (_mediaUdp this) →
  clock_encodable (_lastPacketTime this) →
  ∃ report,
    makeRtcpSenderReport heap ssrc this
    = (Normal report,
       set_mediaUdp (getNewNonceBuffer (_mediaUdp this)).2 this)
    ∧ length report = 48%nat
    ∧ take 4 report = [0x80; 0xC8; 0x00; 0x06]
    ∧ slice report 4 8 = be_octets 4 ssrc
    ∧ be_value (slice report 4 8) = ssrc.
Proof.
  intros Hssrc [Hs Ht Hb Hp Hm] [Hkey Hnonce] Hclock.
  unfold makeRtcpSenderReport, mbind, M_bind, get, lift, mret, M_ret, modify.
  unfold writeUInt32BE at 1.
  rewrite writeUIntBE_Int; [| exact Hssrc | simpl; lia].
  match goal with
  | |- context [list_inserts 4 (be_octets 4 ssrc) ?b] =>
      change (list_inserts 4 (be_octets 4 ssrc) b)
        with ([0x80; 0xC8; 0x00; 0x06] ++ be_octets 4 ssrc)
  end.
  assert (Hwords : ∃ msw lsw, ntpWords (_lastPacketTime this) = (msw, lsw)
            ∧ match msw with NaN => True | Int z => u32 z end
            ∧ match lsw with NaN => True | Int z => u32 z end).
  { destruct (_lastPacketTime this) as [t|].
    - rewrite ntpWords_Some. exists (Int (t - ntpEpoch)), (Int 0).
      simpl in Hclock. unfold u32, max_int32bit in *. repeat split; lia.
    - exists NaN, NaN. done. }
  destruct Hwords as (msw & lsw & -> & Hmsw & Hlsw).
  set (info0 := allocUnsafe _ 20).
  assert (Hlen0 : length info0 = 20%nat) by reflexivity.
  destruct (writeUInt32BE_returns msw 0 info0 Hmsw ltac:(lia))
    as (info1 & -> & Hlen1).
  destruct (writeUInt32BE_returns lsw 4 info1 Hlsw ltac:(lia))
    as (info2 & -> & Hlen2).
  destruct (writeUInt32BE_returns (Int (_timestamp this)) 8 info2 Ht ltac:(lia))
    as (info3 & -> & Hlen3).
  destruct (writeUInt32BE_returns (Int (_sequence this)) 12 info3 Hs ltac:(lia))
    as (info4 & -> & Hlen4).
  destruct (writeUInt32BE_returns (Int (_totalBytes this)) 16 info4 Hb ltac:(lia))
    as (info5 & -> & Hlen5).
  simpl fst; simpl snd; cbv iota beta.
  change (getNewNonceBuffer (_mediaUdp this))
    with (nonceSource (_mediaUdp this) (noncesTaken (_mediaUdp this)),
          (getNewNonceBuffer (_mediaUdp this)).2).
  cbv iota beta. simpl secretkey.
  rewrite crypto_secretbox_easy_returns by done.
  eexists. split; [reflexivity|].
  unfold concat, subarray. rewrite app_nil_r.
  repeat split.
  - rewrite !length_app, secretbox_length, length_take, Hnonce,
      length_be_octets, Hlen5, Hlen4, Hlen3, Hlen2, Hlen1, Hlen0.
    reflexivity.
  - match goal with
    | |- be_value ?s = _ => change s with (be_octets 4 ssrc)
    end.
    rewrite be_value_octets_small; [done | exact Hssrc].
Qed.
(** A wall clock 2^32 ms or more past the NTP epoch (any time since
    February 1900) does not fit the 32-bit integer part: the write throws
    and no report is built. *)
Lemma makeRtcpSenderReport_clock_overflow ssrc t this :
  u32 ssrc → _lastPacketTime this = Some t →
  max_int32bit ≤ t - ntpEpoch →
  makeRtcpSenderReport heap ssrc this = (Throw (RangeError "value"), this).
Proof.
  intros Hssrc Ht Hover.
  unfold makeRtcpSenderReport, mbind, M_bind, get, lift, mret, M_ret, modify.
  unfold writeUInt32BE at 1.
  rewrite writeUIntBE_Int; [| exact Hssrc | simpl; lia].
  rewrite Ht, ntpWords_Some. unfold writeUInt32BE at 1.
  rewrite writeUIntBE_out_of_range; [done|].
  left. exact Hover.
Qed.

Lemma fires_gtb prev packetCount :
  ((if prev >? packetCount then packetCount + max_int32bit else packetCount)
     / 2 ^ 7 - prev / 2 ^ 7 >? 0) = true
  ↔ fires prev packetCount.
Proof. unfold fires, effective. rewrite Z.gtb_gt. reflexivity. Qed.

Lemma onFrameSent_returns bytesSent ssrc this :
  counters_ok this → 0 ≤ bytesSent → u32 ssrc →
  udp_ok (_mediaUdp this) → clock_encodable (_lastPacketTime this) →
  sendFailure (_mediaUdp this) (sendAttempts (_mediaUdp this)) = None →
  ∃ this',
    onFrameSent heap bytesSent ssrc this = (Normal (), this')
    ∧ (fires (_prevTotalPackets this) (_sequence this) →
       ∃ report,
         sent (_mediaUdp this') = sent (_mediaUdp this) ++ [report]
         ∧ length report = 48%nat
         ∧ _prevTotalPackets this' = _sequence this)
    ∧ (¬ fires (_prevTotalPackets this) (_sequence this) →
       this' = set_totalBytes
                 (Z.rem (_totalBytes this + bytesSent) max_int32bit) this).
Proof.
  intros Hok Hbytes Hssrc Hudp Hclock Hsend.
  set (this1 := set_totalBytes
                  (Z.rem (_totalBytes this + bytesSent) max_int32bit) this).
  assert (Hok1 : counters_ok this1).
  { destruct Hok as [Hs Ht Hb Hp Hm]. constructor; simpl; try done.
    apply rem_u32. unfold u32 in Hb. lia. }
  pose proof (fires_gtb (_prevTotalPackets this) (_sequence this)) as Hfires.
  rewrite onFrameSent_eq. cbv zeta. fold this1.
  destruct (_ >? 0) eqn:Hdue.
  - destruct (makeRtcpSenderReport_returns ssrc this1 Hssrc Hok1 Hudp Hclock)
      as (report & -> & Hlen & _).
    unfold sendPacket. simpl. rewrite Hsend.
    eexists. split; [reflexivity|]. split.
    + intros _. exists report. simpl. done.
    + intros Hno. exfalso. apply Hno, Hfires. reflexivity.
  - eexists. split; [reflexivity|]. split.
    + intros Hyes. apply Hfires in Hyes. discriminate.
    + done.
Qed.

(** Off a boundary the call only adds to the byte total, whatever the
    state. *)
Lemma onFrameSent_idle bytesSent ssrc this :
  ¬ fires (_prevTotalPackets this) (_sequence this) →
  onFrameSent heap bytesSent ssrc this
  = (Normal (),
     set_totalBytes (Z.rem (_totalBytes this + bytesSent) max_int32bit) this).
Proof.
  intros Hno.
  pose proof (fires_gtb (_prevTotalPackets this) (_sequence this)) as Hfires.
  unfold onFrameSent, mbind, M_bind, get, lift, mret, M_ret, modify.
  simpl _sequence. simpl _prevTotalPackets.
  destruct (_ >? 0) eqn:Hdue; [|reflexivity].
  exfalso. apply Hno, Hfires. reflexivity.
Qed.

Lemma writeUIntBE_inv v offset n buf buf' :
  writeUIntBE v offset n buf = Normal buf' →
  buf' = list_inserts offset (octets_of n v) buf
  ∧ match v with NaN => True | Int z => 0 ≤ z < 2 ^ (8 * Z.of_nat n) end.
Proof.
  unfold writeUIntBE, checkInt. destruct v as [|z].
  - destruct (_ <? _)%nat; [discriminate|]. intros [= <-]. done.
  - destruct (z >? _) eqn:Hhi; [discriminate|].
    destruct (z <? 0) eqn:Hlo; [discriminate|]. simpl.
    destruct (_ <? _)%nat; [discriminate|]. intros [= <-].
    split; [done | lia].
Qed.

Lemma length_writeUInt32BE v offset buf buf' :
  writeUInt32BE v offset buf = Normal buf' → length buf' = length buf.
Proof.
  intros Hw. apply writeUIntBE_inv in Hw as [-> _]. apply length_inserts.
Qed.

(** Whatever buffer the report builder returns is 48 bytes long, starts
    [80 C8 00 06] and carries the ssrc in bytes 4 to 7. *)
Lemma makeRtcpSenderReport_returned_layout ssrc this report this' :
  makeRtcpSenderReport heap ssrc this = (Normal report, this') →
  length report = 48%nat
  ∧ take 4 report = [0x80; 0xC8; 0x00; 0x06]
  ∧ slice report 4 8 = be_octets 4 ssrc
  ∧ be_value (slice report 4 8) = ssrc.
Proof.
  unfold makeRtcpSenderReport, mbind, M_bind, get, lift, mret, M_ret, modify.
  destruct (writeUInt32BE (Int ssrc) 4 _) as [hdr|] eqn:Hhdr; [|discriminate].
  apply writeUIntBE_inv in Hhdr as [-> Hssrc].
  destruct (ntpWords _) as [msw lsw].
  set (info0 := allocUnsafe _ 20).
  assert (Hlen0 : length info0 = 20%nat) by reflexivity.
  destruct (writeUInt32BE msw 0 info0) as [info1|] eqn:H1; [|discriminate].
  destruct (writeUInt32BE lsw 4 info1) as [info2|] eqn:H2; [|discriminate].
  destruct (writeUInt32BE _ 8 info2) as [info3|] eqn:H3; [|discriminate].
  destruct (writeUInt32BE _ 12 info3) as [info4|] eqn:H4; [|discriminate].
  destruct (writeUInt32BE _ 16 info4) as [info5|] eqn:H5; [|discriminate].
  apply length_writeUInt32BE in H1, H2, H3, H4, H5.
  simpl fst; simpl snd; cbv iota beta.
  change (getNewNonceBuffer (_mediaUdp this))
    with (nonceSource (_mediaUdp this) (noncesTaken (_mediaUdp this)),
          (getNewNonceBuffer (_mediaUdp this)).2).
  cbv iota beta. simpl secretkey.
  unfold crypto_secretbox_easy.
  destruct (length (nonceSource _ _) =? 24)%nat eqn:Hnonce; [|discriminate].
  destruct (length (secretkey _) =? 32)%nat; [|discriminate].
  apply Nat.eqb_eq in Hnonce. cbv iota beta.
  remember (list_inserts 4 _ _) as hdr eqn:Hhdr.
  remember (subarray 4 _) as prefix eqn:Hprefix.
  remember (secretbox _ _ _) as box eqn:Hbox.
  intros Hrun. injection Hrun as <- _.
  assert (Hlayout : hdr = [0x80; 0xC8; 0x00; 0x06] ++ be_octets 4 ssrc)
    by (subst hdr; reflexivity).
  assert (Hlen : length (hdr ++ box ++ prefix) = 48%nat).
  { subst. unfold subarray.
    rewrite !length_app, secretbox_length, length_take, Hnonce, length_inserts,
      H5, H4, H3, H2, H1, Hlen0.
    reflexivity. }
  unfold concat. rewrite app_nil_r. split; [exact Hlen|].
  rewrite Hlayout. split; [reflexivity|].
  change (slice (_ ++ _) 4 8) with (be_octets 4 ssrc).
  split; [reflexivity|]. by rewrite be_value_octets_small.
Qed.

(** C1 (the code departs from it). Once a frame has gone out at a
    present-day wall clock -- here [Date.now() = 1700000000000], 14
    November 2023 -- the packetizer is in a reachable state in which
    [makeRtcpSenderReport] returns no buffer at all: the integer part of
    the timestamp, 3908988800000 ms, is past the unsigned 32-bit range
    and [writeUInt32BE] throws. *)
Theorem makeRtcpSenderReport_throws_after_sendFrame
    connection payloadType extensionEnabled :
  let this := (sendFrame 1700000000000
                 (constructor connection payloadType extensionEnabled)).2 in
  reachable heap this
  ∧ makeRtcpSenderReport heap 12345 this = (Throw (RangeError "value"), this).
Proof.
  intros this. split.
  - apply (reachable_call heap (SendFrame 1700000000000)); [|exact I].
    apply reachable_new.
  - apply (makeRtcpSenderReport_clock_overflow 12345 1700000000000).
    + unfold u32, max_int32bit. lia.
    + reflexivity.
    + unfold max_int32bit, ntpEpoch. lia.
Qed.

(** A report is sent only on a boundary crossing; off a boundary the call
    returns having sent nothing and left the last reported count alone. *)
Lemma onFrameSent_sends_only_when_due bytesSent ssrc this :
  let this' := (onFrameSent heap bytesSent ssrc this).2 in
  (packetsOnWire this' = S (packetsOnWire this) →
   fires (_prevTotalPackets this) (_sequence this))
  ∧ (¬ fires (_prevTotalPackets this) (_sequence this) →
     (onFrameSent heap bytesSent ssrc this).1 = Normal ()
     ∧ packetsOnWire this' = packetsOnWire this
     ∧ _prevTotalPackets this' = _prevTotalPackets this).
Proof.
  intros this'.
  assert (Hidle : ¬ fires (_prevTotalPackets this) (_sequence this) →
            (onFrameSent heap bytesSent ssrc this).1 = Normal ()
            ∧ packetsOnWire this' = packetsOnWire this
            ∧ _prevTotalPackets this' = _prevTotalPackets this).
  { intros Hno. subst this'.
    by rewrite (onFrameSent_idle bytesSent ssrc this Hno). }
  split; [|exact Hidle].
  intros Hsent.
  destruct (Z_gt_dec
              (effective (_prevTotalPackets this) (_sequence this) / 128
               - _prevTotalPackets this / 128) 0) as [Hf|Hf]; [exact Hf|].
  destruct (Hidle Hf) as (_ & Hsame & _). lia.
Qed.

(** Whenever the report can be built and the transport takes it, the call
    returns, and one more packet is on the wire iff the boundary was
    crossed. *)
Lemma onFrameSent_sends_iff_due bytesSent ssrc this :
  counters_ok this → 0 ≤ bytesSent → u32 ssrc →
  udp_ok (_mediaUdp this) → clock_encodable (_lastPacketTime this) →
  sendFailure (_mediaUdp this) (sendAttempts (_mediaUdp this)) = None →
  ∃ this',
    onFrameSent heap bytesSent ssrc this = (Normal (), this')
    ∧ (packetsOnWire this' = S (packetsOnWire this)
       ↔ fires (_prevTotalPackets this) (_sequence this))
    ∧ (packetsOnWire this' = packetsOnWire this
       ↔ ¬ fires (_prevTotalPackets this) (_sequence this))
    ∧ (fires (_prevTotalPackets this) (_sequence this) →
       _prevTotalPackets this' = _sequence this
       ∧ ∃ report,
           sent (_mediaUdp this') = sent (_mediaUdp this) ++ [report]
           ∧ length report = 48%nat).
Proof.
  intros Hok Hbytes Hssrc Hudp Hclock Hsend.
  destruct (onFrameSent_returns bytesSent ssrc this Hok Hbytes Hssrc Hudp
              Hclock Hsend) as (this' & Hrun & Hyes & Hno).
  exists this'. split; [exact Hrun|].
  destruct (Z_gt_dec
              (effective (_prevTotalPackets this) (_sequence this) / 128
               - _prevTotalPackets this / 128) 0) as [Hf|Hf];
    fold (fires (_prevTotalPackets this) (_sequence this)) in Hf.
  + destruct (Hyes Hf) as (report & Hsent & Hlen & Hprev).
    assert (Hwire : packetsOnWire this' = S (packetsOnWire this)).
    { unfold packetsOnWire. rewrite Hsent, length_app. simpl. lia. }
    repeat split; try done.
    * intros Heq. rewrite Heq in Hwire. lia.
    * eauto.
  + specialize (Hno Hf). subst this'. repeat split; try done.
    unfold packetsOnWire. simpl. lia.
Qed.

(** With no frame time recorded, over the 31 packets with raw counts
    [2^32 - 10] to [2^32 + 20], starting with the last report at
    [2^32 - 128]: no report goes out before the wrap, one goes out on the
    packet that wraps the counter to 0, and none after it. *)
Lemma wraparound_run n :
  (n ≤ 31)%nat →
  let this' := (packetsSent heap n 1200 12345 nearWrap).2 in
  _sequence this' = (2 ^ 32 - 11 + Z.of_nat n) mod 2 ^ 32
  ∧ packetsOnWire this' = if (n <? 11)%nat then 0%nat else 1%nat.
Proof.
  intros Hn.
  do 32 (destruct n as [|n]; [vm_compute; split; reflexivity|]). lia.
Qed.

Lemma reachable_afterSequences n this :
  reachable heap this → reachable heap (afterSequences n this).
Proof.
  intros Hreach. induction n as [|n IH]; [exact Hreach|].
  change (afterSequences (S n) this)
    with (perform heap GetNewSequence (afterSequences n this)).
  by apply reachable_call.
Qed.

(** On a crossed boundary, with a frame time the timestamp cannot hold, the
    call throws out of the report builder: the bytes are counted, nothing
    reaches the transport. *)
Lemma onFrameSent_clock_overflow bytesSent ssrc t this :
  u32 ssrc → _lastPacketTime this = Some t →
  max_int32bit ≤ t - ntpEpoch →
  fires (_prevTotalPackets this) (_sequence this) →
  onFrameSent heap bytesSent ssrc this
  = (Throw (RangeError "value"),
     set_totalBytes (Z.rem (_totalBytes this + bytesSent) max_int32bit) this).
Proof.
  intros Hssrc Ht Hover Hf.
  pose proof (fires_gtb (_prevTotalPackets this) (_sequence this)) as Hfires.
  rewrite onFrameSent_eq. cbv zeta.
  destruct (_ >? 0); [|apply Hfires in Hf; discriminate].
  by rewrite (makeRtcpSenderReport_clock_overflow ssrc t).
Qed.

(** C2 (the code departs from it). A packetizer that has sent a frame at a
    present-day wall clock ([Date.now() = 1700000000000]) and then consumed
    128 sequence numbers is in a reachable state in which the boundary
    test holds ([floor(128 / 128) - floor(0 / 128) > 0]), and yet
    [onFrameSent] emits no report: it throws the [RangeError] of the report
    builder, no send is attempted, and the last reported count stays 0. *)
Theorem onFrameSent_due_report_not_sent
    connection payloadType extensionEnabled :
  let this :=
    afterSequences 128
      (sendFrame 1700000000000
         (constructor connection payloadType extensionEnabled)).2 in
  let this' := (onFrameSent heap 1200 12345 this).2 in
  reachable heap this
  ∧ _sequence this = 128
  ∧ _prevTotalPackets this = 0
  ∧ fires (_prevTotalPackets this) (_sequence this)
  ∧ (onFrameSent heap 1200 12345 this).1 = Throw (RangeError "value")
  ∧ sent (_mediaUdp this') = sent connection
  ∧ sendAttempts (_mediaUdp this') = sendAttempts connection
  ∧ _prevTotalPackets this' = 0.
Proof.
  intros this this'.
  assert (Hreach : reachable heap this).
  { apply reachable_afterSequences.
    apply (reachable_call heap (SendFrame 1700000000000)); [|exact I].
    apply reachable_new. }
  assert (Hthis : this
            = set_sequence 128
                (set_lastPacketTime (Some 1700000000000)
                   (constructor connection payloadType extensionEnabled)))
    by (vm_compute; reflexivity).
  assert (Hf : fires (_prevTotalPackets this) (_sequence this))
    by (rewrite Hthis; vm_compute; reflexivity).
  assert (Hrun : onFrameSent heap 1200 12345 this
            = (Throw (RangeError "value"),
               set_totalBytes
                 (Z.rem (_totalBytes this + 1200) max_int32bit) this)).
  { apply (onFrameSent_clock_overflow 1200 12345 1700000000000).
    - unfold u32, max_int32bit. lia.
    - by rewrite Hthis.
    - unfold max_int32bit, ntpEpoch. lia.
    - exact Hf. }
  subst this'. rewrite Hrun. simpl fst. simpl snd.
  split; [exact Hreach|].
  split; [by rewrite Hthis|]. split; [by rewrite Hthis|].
  split; [exact Hf|]. split; [done|]. rewrite Hthis. repeat split.
Qed.
End SenderReport.

(** ** The NTP timestamp *)

(** On the wall clocks that fit, the two words encode the distance to the
    1900 epoch exactly: the integer part is the distance, the fraction is
    zero. *)
Lemma ntpWords_roundtrip t :
  clock_encodable (Some t) →
  ∃ msw lsw,
    ntpWords (Some t) = (Int msw, Int lsw) ∧ u32 msw ∧ u32 lsw
    ∧ (fixed_32_32 msw lsw == inject_Z (t - ntpEpoch))%Q.
Proof.
  intros Hclock. simpl in Hclock. exists (t - ntpEpoch), 0.
  rewrite ntpWords_Some. unfold u32, max_int32bit in *.
  repeat split; try lia.
  unfold fixed_32_32. change (inject_Z 0) with 0%Q. field. discriminate.
Qed.

(** C6 (the code departs from it). For the synthetic wall clock
    [1700000000000] ms the distance to the 1900 epoch is 3908988800000, the
    words computed are that integer and a zero fraction, and the integer
    does not fit 32 bits: [writeUInt32BE] throws instead of encoding it, and
    no 32.32 pair denotes the distance, so nothing round-trips. *)
Theorem ntpWords_overflow_32_32 :
  ntpWords (Some 1700000000000) = (Int 3908988800000, Int 0)
  ∧ 1700000000000 - ntpEpoch = 3908988800000
  ∧ ¬ clock_encodable (Some 1700000000000)
  ∧ (∀ buf, writeUInt32BE (Int 3908988800000) 0 buf
            = Throw (RangeError "value"))
  ∧ (∀ msw lsw, u32 msw → u32 lsw →
       ¬ (fixed_32_32 msw lsw == inject_Z (1700000000000 - ntpEpoch))%Q).
Proof.
  split; [apply ntpWords_Some|]. split; [reflexivity|]. split; [|split].
  - simpl. unfold max_int32bit, ntpEpoch. lia.
  - intros buf. apply writeUIntBE_out_of_range. left. simpl. lia.
  - intros msw lsw Hm Hl. unfold u32, max_int32bit in *.
    unfold fixed_32_32, Qeq, Qplus, Qdiv, Qmult, Qinv, inject_Z. simpl.
    unfold ntpEpoch. lia.
Qed.

(** ** The RTP header *)

Lemma byte1_bits payloadType :
  0 ≤ payloadType < 128 →
  Z.testbit (to_uint8 (Z.lor (to_uint8 payloadType) 128)) 7 = true
  ∧ Z.land (to_uint8 (Z.lor (to_uint8 payloadType) 128)) 127 = payloadType
  ∧ Z.testbit (to_uint8 payloadType) 7 = false
  ∧ Z.land (to_uint8 payloadType) 127 = payloadType.
Proof.
  intros Hpt.
  assert (Hall : Forall (λ p,
            Z.testbit (to_uint8 (Z.lor (to_uint8 p) 128)) 7 = true
            ∧ Z.land (to_uint8 (Z.lor (to_uint8 p) 128)) 127 = p
            ∧ Z.testbit (to_uint8 p) 7 = false
            ∧ Z.land (to_uint8 p) 127 = p) (seqZ 0 128)).
  { apply (bool_decide_unpack _). by vm_compute. }
  rewrite List.Forall_forall in Hall. apply Hall.
  apply list_elem_of_In, elem_of_seqZ. lia.
Qed.

(** C4, as amended. On a packetizer whose counters are in range (every
    reachable one), for an unsigned 32-bit ssrc and a payload type that
    fits 7 bits, [makeRtpHeader] returns the 12-byte header laid out as
    [rtpHeader_layout] says: version [10], extension bit as configured,
    marker set iff [isLastPacket], payload type in the low 7 bits of byte
    1, then the consumed sequence number, the timestamp and the ssrc,
    big-endian. *)
Theorem makeRtpHeader_layout this ssrc isLastPacket :
  counters_ok this → u32 ssrc → 0 ≤ _payloadType this < 128 →
  rtpHeader_layout this ssrc isLastPacket.
Proof.
  intros [Hs Ht Hb Hp Hm] Hssrc Hpt.
  set (sequence := Z.rem (Z.rem (_sequence this + 1) max_int32bit) max_int16bit).
  assert (Hseq : 0 ≤ sequence < 2 ^ 16).
  { pose proof (rem_u32 (_sequence this + 1)) as Hrem.
    unfold u32, max_int32bit, max_int16bit in *. subst sequence.
    rewrite (Z.rem_mod_nonneg _ (2 ^ 16)) by lia.
    apply Z.mod_pos_bound. lia. }
  destruct (byte1_bits _ Hpt) as (Hm1 & Hp1 & Hm0 & Hp0).
  unfold rtpHeader_layout.
  unfold makeRtpHeader, mbind, M_bind, get, lift, mret, M_ret.
  rewrite getNewSequence_eq. fold sequence. cbv iota beta.
  rewrite writeUIntBE_Int; [| exact Hseq | destruct isLastPacket; simpl; lia].
  cbv iota beta. simpl _timestamp.
  rewrite writeUIntBE_Int; [| exact Ht | destruct isLastPacket; simpl; lia].
  cbv iota beta.
  rewrite writeUIntBE_Int; [| exact Hssrc | destruct isLastPacket; simpl; lia].
  set (b0 := to_uint8 (Z.lor (Z.shiftl 2 6)
                 (Z.shiftl (if _extensionEnabled this then 1 else 0) 4))).
  set (b1 := if isLastPacket
             then to_uint8 (Z.lor (to_uint8 (_payloadType this)) 128)
             else to_uint8 (_payloadType this)).
  match goal with
  | |- context [Normal (list_inserts 8 ?c (list_inserts 4 ?t
                          (list_inserts 2 ?s ?b)))] =>
      replace (list_inserts 8 c (list_inserts 4 t (list_inserts 2 s b)))
        with ([b0; b1] ++ be_octets 2 sequence
                       ++ be_octets 4 (_timestamp this) ++ be_octets 4 ssrc)
        by (subst b1; destruct isLastPacket; reflexivity)
  end.
  exists ([b0; b1] ++ be_octets 2 sequence
                   ++ be_octets 4 (_timestamp this) ++ be_octets 4 ssrc),
         sequence, b0, b1.
  change (slice (_ ++ _) 2 4) with (be_octets 2 sequence).
  change (slice (_ ++ _) 4 8) with (be_octets 4 (_timestamp this)).
  change (slice (_ ++ _) 8 12) with (be_octets 4 ssrc).
  rewrite !be_value_octets_small by done.
  repeat split.
  - subst b0. by destruct (_extensionEnabled this).
  - subst b0. by destruct (_extensionEnabled this).
  - subst b1. by destruct isLastPacket.
  - subst b1. by destruct isLastPacket.
Qed.

(** C4 at the scenario of the specification: payload type 101, no
    extension, ssrc 12345, last packet of its frame. *)
Lemma makeRtpHeader_layout_witness :
  rtpHeader_layout (constructor idleConnection 101 false) 12345 true.
Proof.
  apply (makeRtpHeader_layout (constructor idleConnection 101 false) 12345 true).
  - constructor; unfold u32, max_int32bit; simpl; lia.
  - unfold u32, max_int32bit. lia.
  - simpl. lia.
Defined.

(** C4 as stated fails on a payload type that needs the eighth bit: with
    payload type 200 and [isLastPacket = false], byte 1 of the header is
    200, whose marker bit is set and whose low 7 bits are 72. *)
Lemma makeRtpHeader_layout_counterexample :
  counters_ok (constructor idleConnection 200 false)
  ∧ u32 12345
  ∧ (makeRtpHeader 12345 false (constructor idleConnection 200 false)).1
    = Normal [128; 200; 0; 1; 0; 0; 0; 0; 0; 0; 48; 57]
  ∧ ¬ rtpHeader_layout (constructor idleConnection 200 false) 12345 false.
Proof.
  split; [constructor; unfold u32, max_int32bit; simpl; lia|].
  split; [unfold u32, max_int32bit; lia|].
  split; [reflexivity|].
  intros (header & sequence & b0 & b1 & Hrun & _ & _ & _ & Hb1 & _ & _ & Hmark & _).
  vm_compute in Hrun. injection Hrun as <-.
  injection Hb1 as <-. vm_compute in Hmark. discriminate.
Qed.

(** ** Codec names *)

Lemma upcase_idem c : upcase (upcase c) = upcase c.
Proof. destruct c as [[] [] [] [] [] [] [] []]; reflexivity. Qed.

Lemma toUpperCase_idem s : toUpperCase (toUpperCase s) = toUpperCase s.
Proof. induction s as [|c s IH]; simpl; [done | by rewrite upcase_idem, IH]. Qed.

(** Case folding makes the tests blind to upper-casing of the subject. *)
Lemma prefix_i_toUpperCase w s : prefix_i w (toUpperCase s) = prefix_i w s.
Proof.
  revert s. induction w as [|a w IH]; intros [|b s]; simpl; try done.
  by rewrite upcase_idem, IH.
Qed.

Lemma infix_i_toUpperCase w s : infix_i w (toUpperCase s) = infix_i w s.
Proof.
  induction s as [|b s IH].
  - reflexivity.
  - change (infix_i w (toUpperCase (String b s)))
      with (prefix_i w (toUpperCase (String b s)) || infix_i w (toUpperCase s)).
    rewrite prefix_i_toUpperCase, IH. reflexivity.
Qed.

Lemma test_i_toUpperCase r s : test_i r (toUpperCase s) = test_i r s.
Proof.
  unfold test_i. induction (words r) as [|w ws IH]; simpl; [done|].
  by rewrite infix_i_toUpperCase, IH.
Qed.

(** The boolean tests decide occurrence. *)
Lemma prefix_i_occurs w s :
  prefix_i w s = true
  ↔ ∃ mid post, s = String.append mid post ∧ toUpperCase mid = toUpperCase w.
Proof.
  revert s. induction w as [|a w IH]; intros s.
  - split; [intros _; by exists EmptyString, s | by destruct s].
  - destruct s as [|b s]; simpl.
    + split; [done|]. intros (mid & post & Hs & Hmid).
      destruct mid; simpl in *; discriminate.
    + rewrite andb_true_iff, Ascii.eqb_eq, IH. split.
      * intros (Hab & mid & post & -> & Hmid).
        exists (String b mid), post. simpl. by rewrite Hmid, Hab.
      * intros (mid & post & Hs & Hmid).
        destruct mid as [|c mid]; simpl in *; [discriminate|].
        injection Hs as -> ->. injection Hmid as Hc Hmid.
        split; [done|]. by exists mid, post.
Qed.

Lemma infix_i_occurs w s : infix_i w s = true ↔ occurs_i w s.
Proof.
  unfold occurs_i. induction s as [|b s IH].
  - simpl. rewrite orb_false_r, prefix_i_occurs. split.
    + intros (mid & post & Hs & Hmid). by exists EmptyString, mid, post.
    + intros (pre & mid & post & Hs & Hmid).
      destruct pre; simpl in Hs; [|discriminate]. by exists mid, post.
  - change (infix_i w (String b s))
      with (prefix_i w (String b s) || infix_i w s).
    rewrite orb_true_iff, prefix_i_occurs, IH. split.
    + intros [(mid & post & Hs & Hmid) | (pre & mid & post & Hs & Hmid)].
      * by exists EmptyString, mid, post.
      * exists (String b pre), mid, post. simpl. by rewrite Hs.
    + intros (pre & mid & post & Hs & Hmid).
      destruct pre as [|c pre]; simpl in Hs.
      * left. by exists mid, post.
      * injection Hs as -> ->. right. by exists pre, mid, post.
Qed.

Lemma test_i_occurs r s :
  test_i r s = true ↔ ∃ w, In w (words r) ∧ occurs_i w s.
Proof.
  unfold test_i. rewrite existsb_exists.
  split; intros (w & Hw & Hocc); exists w; by rewrite ?infix_i_occurs in *.
Qed.

Lemma recognizedb_recognized codec :
  recognizedb codec = true ↔ recognized codec.
Proof.
  unfold recognizedb, recognized.
  rewrite !orb_true_iff, !String.eqb_eq, !test_i_occurs.
  change (words re_h264) with ["H264"; "H.264"; "AVC"]%string.
  change (words re_h265) with ["H265"; "H.265"; "HEVC"]%string.
  change (words re_vp) with ["VP8"; "VP9"]%string.
  change (words re_av1) with ["AV1"]%string.
  split.
  - intros [[[[[?|?]|(w & Hw & ?)]|(w & Hw & ?)]|(w & Hw & ?)]|(w & Hw & ?)];
      auto; right; right; exists w; (split; [|done]); simpl in *; tauto.
  - intros [?|[?|(w & Hw & Hocc)]]; auto 10.
    simpl in Hw.
    destruct Hw as [<-|[<-|[<-|[<-|[<-|[<-|[<-|[<-|[<-|[]]]]]]]]]].
    + left; left; left; right. exists "H264"%string. simpl. auto.
    + left; left; left; right. exists "H.264"%string. simpl. auto.
    + left; left; left; right. exists "AVC"%string. simpl. auto.
    + left; left; right. exists "H265"%string. simpl. auto.
    + left; left; right. exists "H.265"%string. simpl. auto.
    + left; left; right. exists "HEVC"%string. simpl. auto.
    + left; right. exists "VP8"%string. simpl. auto.
    + left; right. exists "VP9"%string. simpl. auto.
    + right. exists "AV1"%string. simpl. auto.
Qed.

Lemma normalizeVideoCodec_throws codec :
  recognizedb codec = false →
  normalizeVideoCodec codec
  = Throw (Error (String.append "Unknown codec: " codec)).
Proof.
  unfold recognizedb, normalizeVideoCodec. rewrite !orb_false_iff.
  intros (((((He1 & He2) & H1) & H2) & H3) & H4).
  by rewrite He1, He2, H1, H2, H3, H4.
Qed.

Lemma normalizeVideoCodec_returns codec :
  recognizedb codec = true → ∃ v, normalizeVideoCodec codec = Normal v.
Proof.
  unfold recognizedb, normalizeVideoCodec. intros Hrec.
  destruct (String.eqb codec "h264_mediacodec"
            || String.eqb codec "hevc_mediacodec"); [eauto|].
  destruct (test_i re_h264 codec); [eauto|].
  destruct (test_i re_h265 codec); [eauto|].
  destruct (test_i re_vp codec); [eauto|].
  destruct (test_i re_av1 codec); [eauto|]. discriminate.
Qed.

Lemma toUpperCase_neq_lower s w :
  toUpperCase w ≠ w → String.eqb (toUpperCase s) w = false.
Proof.
  intros Hw. apply String.eqb_neq. intros Heq. apply Hw.
  rewrite <- Heq. apply toUpperCase_idem.
Qed.

Lemma videoOutputFor_throws videoCodec :
  ¬ streamable videoCodec →
  videoOutputFor videoCodec = Throw (Error "Codec not supported").
Proof.
  unfold streamable, videoOutputFor. simpl. intros Hno.
  destruct (String.eqb_spec videoCodec "h264_mediacodec");
    [exfalso; apply Hno; auto 10|].
  destruct (String.eqb_spec videoCodec "H264");
    [exfalso; apply Hno; auto 10|].
  destruct (String.eqb_spec videoCodec "hevc_mediacodec");
    [exfalso; apply Hno; auto 10|].
  destruct (String.eqb_spec videoCodec "H265");
    [exfalso; apply Hno; auto 10|].
  destruct (String.eqb_spec videoCodec "VP8");
    [exfalso; apply Hno; auto 10|].
  reflexivity.
Qed.

Lemma videoOutputFor_returns videoCodec :
  streamable videoCodec → ∃ output, videoOutputFor videoCodec = Normal output.
Proof.
  unfold streamable. simpl.
  intros [<-|[<-|[<-|[<- |[<-|[]]]]]]; by eexists.
Qed.

(** C8, as amended. A codec name that is not recognized makes
    [normalizeVideoCodec] throw, and the promise of [streamLivestreamVideo]
    is rejected with that error; a name that is normalized to anything but
    H264, H265, VP8, h264_mediacodec or hevc_mediacodec is rejected with
    "Codec not supported".  In both cases the executor has by then
    constructed its [VideoStream] object, which it does before it looks at
    the codec, and nothing else: no splitter, no ffmpeg output, no pipe,
    and the command is never run. *)
Theorem unsupported_codec_rejected codec includeAudio :
  (¬ recognized codec →
     normalizeVideoCodec codec
     = Throw (Error (String.append "Unknown codec: " codec))
     ∧ streamLivestreamVideo codec includeAudio
       = (Rejected (Error (String.append "Unknown codec: " codec)),
          [NewVideoStream]))
  ∧ (∀ v, normalizeVideoCodec codec = Normal v → ¬ streamable v →
       streamLivestreamVideo codec includeAudio
       = (Rejected (Error "Codec not supported"), [NewVideoStream])).
Proof.
  split.
  - intros Hno.
    assert (Hthrow : normalizeVideoCodec codec
                     = Throw (Error (String.append "Unknown codec: " codec))).
    { apply normalizeVideoCodec_throws.
      destruct (recognizedb codec) eqn:Hrec; [|done].
      exfalso. by apply Hno, recognizedb_recognized. }
    split; [exact Hthrow|]. unfold streamLivestreamVideo. by rewrite Hthrow.
  - intros v Hv Hno. unfold streamLivestreamVideo.
    by rewrite Hv, (videoOutputFor_throws v Hno).
Qed.

(** C8 at "mpeg4" (not recognized) and at "VP9" (normalized, but without a
    splitter). *)
Lemma unsupported_codec_rejected_witness :
  streamLivestreamVideo "mpeg4" true
  = (Rejected (Error "Unknown codec: mpeg4"), [NewVideoStream])
  ∧ streamLivestreamVideo "VP9" true
    = (Rejected (Error "Codec not supported"), [NewVideoStream]).
Proof.
  destruct (unsupported_codec_rejected "mpeg4" true) as (Hunknown & _).
  destruct (unsupported_codec_rejected "VP9" true) as (_ & Hnosplit).
  split.
  - refine (proj2 (Hunknown _)).
    intros Hrec. apply recognizedb_recognized in Hrec. vm_compute in Hrec.
    discriminate.
  - refine (Hnosplit "VP9"%string _ _).
    + vm_compute. reflexivity.
    + unfold streamable. simpl. intros Hin.
      repeat (destruct Hin as [Hin|Hin]; [discriminate|]). exact Hin.
Defined.

(** C8 as stated fails on "creates no partial stream state": on the
    unrecognized name "mpeg4", and on "VP9", which is normalized but has no
    splitter, the promise is rejected after the executor has constructed a
    [VideoStream] on the connection. *)
Lemma unsupported_codec_rejected_counterexample :
  ¬ recognized "mpeg4"
  ∧ (streamLivestreamVideo "mpeg4" true).1
    = Rejected (Error "Unknown codec: mpeg4")
  ∧ (streamLivestreamVideo "mpeg4" true).2 ≠ []
  ∧ normalizeVideoCodec "VP9" = Normal "VP9"%string
  ∧ (streamLivestreamVideo "VP9" true).1
    = Rejected (Error "Codec not supported")
  ∧ (streamLivestreamVideo "VP9" true).2 ≠ [].
Proof.
  split.
  { intros Hrec. apply recognizedb_recognized in Hrec. vm_compute in Hrec.
    discriminate. }
  repeat split; try (vm_compute; reflexivity); vm_compute; discriminate.
Qed.

(** C9. A name [normalizeVideoCodec] returns is a name it maps to itself;
    in particular each of H264, H265, VP8, VP9, AV1, h264_mediacodec and
    hevc_mediacodec is. *)
Theorem normalizeVideoCodec_idempotent :
  (∀ codec v,
      normalizeVideoCodec codec = Normal v → normalizeVideoCodec v = Normal v)
  ∧ Forall (λ v, normalizeVideoCodec v = Normal v)
      ["H264"; "H265"; "VP8"; "VP9"; "AV1"; "h264_mediacodec";
       "hevc_mediacodec"]%string.
Proof.
  split.
  - intros codec v Hv. pose proof Hv as Hv'.
    unfold normalizeVideoCodec in Hv.
    destruct (String.eqb codec "h264_mediacodec"
              || String.eqb codec "hevc_mediacodec") eqn:E0.
    { injection Hv as <-. exact Hv'. }
    destruct (test_i re_h264 codec) eqn:E1; [by injection Hv as <-|].
    destruct (test_i re_h265 codec) eqn:E2; [by injection Hv as <-|].
    destruct (test_i re_vp codec) eqn:E3.
    { injection Hv as <-. unfold normalizeVideoCodec.
      rewrite !toUpperCase_neq_lower by discriminate.
      rewrite !test_i_toUpperCase, E1, E2, E3, toUpperCase_idem. reflexivity. }
    destruct (test_i re_av1 codec) eqn:E4; [by injection Hv as <-|].
    discriminate.
  - repeat constructor.
Qed.

(** C9 at a name that is not one of the seven: "libvpx-vp9" is normalized
    to "LIBVPX-VP9", which is normalized to itself. *)
Lemma normalizeVideoCodec_idempotent_witness :
  normalizeVideoCodec "libvpx-vp9" = Normal "LIBVPX-VP9"%string
  ∧ normalizeVideoCodec "LIBVPX-VP9" = Normal "LIBVPX-VP9"%string.
Proof.
  split; [reflexivity|].
  apply (proj1 normalizeVideoCodec_idempotent "libvpx-vp9"%string).
  reflexivity.
Defined.

(** ** The end-to-end scenario of the specification *)

(** Payload type 101, extensions disabled, two headers for ssrc 12345 with
    [isLastPacket = true]: sequences 1 then 2, marker set both times,
    timestamp 0 and the same ssrc in both. *)
Example two_headers_scenario :
  let fresh := constructor idleConnection 101 false in
  let first := makeRtpHeader 12345 true fresh in
  let second := makeRtpHeader 12345 true first.2 in
  first.1 = Normal [0x80; 0xE5; 0; 1; 0; 0; 0; 0; 0; 0; 0x30; 0x39]
  ∧ second.1 = Normal [0x80; 0xE5; 0; 2; 0; 0; 0; 0; 0; 0; 0x30; 0x39].
Proof. split; reflexivity. Qed.

(** * Further properties *)

(** ** What a call does to the object *)

Section Effects.
Context `{Sodium}.
Variable heap : nat → Z.

(** The report builder either throws on a field write, leaving the object
    as it was, or draws one nonce. *)
Lemma makeRtcpSenderReport_effect ssrc this :
  ((makeRtcpSenderReport heap ssrc this).2 = this
   ∧ ∃ e, (makeRtcpSenderReport heap ssrc this).1 = Throw e)
  ∨ (makeRtcpSenderReport heap ssrc this).2
    = set_mediaUdp (getNewNonceBuffer (_mediaUdp this)).2 this.
Proof.
  unfold makeRtcpSenderReport, mbind, M_bind, get, lift, mret, M_ret, modify.
  destruct (ntpWords (_lastPacketTime this)) as [msw lsw].
  repeat match goal with
         | |- context [writeUInt32BE ?v ?o ?b] =>
             destruct (writeUInt32BE v o b); simpl; [| left; eauto]
         end.
  right. destruct (crypto_secretbox_easy _ _ _); reflexivity.
Qed.

(** The ways a call of [onFrameSent] can go: no report due; a report due
    that cannot be built; a report built, which the transport takes or
    refuses. *)
Lemma onFrameSent_cases bytesSent ssrc this :
  let this1 :=
    set_totalBytes (Z.rem (_totalBytes this + bytesSent) max_int32bit) this in
  let udp1 := (getNewNonceBuffer (_mediaUdp this)).2 in
  (¬ fires (_prevTotalPackets this) (_sequence this)
   ∧ onFrameSent heap bytesSent ssrc this = (Normal (), this1))
  ∨ (fires (_prevTotalPackets this) (_sequence this)
     ∧ ∃ e, makeRtcpSenderReport heap ssrc this1
            = (Throw e, (makeRtcpSenderReport heap ssrc this1).2)
          ∧ onFrameSent heap bytesSent ssrc this
            = (Throw e, (makeRtcpSenderReport heap ssrc this1).2))
  ∨ (fires (_prevTotalPackets this) (_sequence this)
     ∧ ∃ report,
         makeRtcpSenderReport heap ssrc this1
         = (Normal report, set_mediaUdp udp1 this1)
         ∧ (((sendPacket report udp1).1 = Normal ()
             ∧ onFrameSent heap bytesSent ssrc this
               = (Normal (),
                  set_prevTotalPackets (_sequence this)
                    (set_mediaUdp (sendPacket report udp1).2 this1)))
            ∨ (∃ e, (sendPacket report udp1).1 = Throw e
                  ∧ onFrameSent heap bytesSent ssrc this
                    = (Throw e,
                       set_mediaUdp (sendPacket report udp1).2 this1)))).
Proof.
  intros this1 udp1.
  destruct (Z_gt_dec
              (effective (_prevTotalPackets this) (_sequence this) / 128
               - _prevTotalPackets this / 128) 0) as [Hf|Hf];
    fold (fires (_prevTotalPackets this) (_sequence this)) in Hf.
  2:{ left. split; [exact Hf|]. by apply onFrameSent_idle. }
  right.
  pose proof (fires_gtb (_prevTotalPackets this) (_sequence this)) as Hfires.
  rewrite (onFrameSent_eq heap). cbv zeta. fold this1.
  destruct (_ >? 0) eqn:Hdue; [|apply Hfires in Hf; discriminate].
  pose proof (makeRtcpSenderReport_effect ssrc this1) as Heff.
  destruct (makeRtcpSenderReport heap ssrc this1) as [[report|e'] this2].
  - right. split; [exact Hf|]. exists report.
    destruct Heff as [[_ [e He]]|Hst]; [discriminate|].
    cbn [snd] in Hst. subst this2. split; [reflexivity|].
    change (sendPacket report
              (_mediaUdp
                 (set_mediaUdp (getNewNonceBuffer (_mediaUdp this1)).2 this1)))
      with (sendPacket report udp1).
    destruct (sendPacket report udp1) as [[[]|e] udp2].
    + left. split; reflexivity.
    + right. exists e. split; reflexivity.
  - left. split; [exact Hf|]. exists e'. done.
Qed.

Lemma carried_on_refl this : carried_on 0 this this.
Proof.
  repeat split. exists []. rewrite app_nil_r. repeat split; simpl; try lia.
  constructor.
Qed.

Lemma carried_on_trans m n this1 this2 this3 :
  carried_on m this1 this2 → carried_on n this2 this3 →
  carried_on (m + n) this1 this3.
Proof.
  intros (Hp & He & Hm & Hk & Hs & r1 & Hr1 & Hf1 & Hl1 & Hn1)
         (Hp' & He' & Hm' & Hk' & Hs' & r2 & Hr2 & Hf2 & Hl2 & Hn2).
  repeat split; try congruence.
  exists (r1 ++ r2). rewrite Hr2, Hr1, <- app_assoc, length_app.
  repeat split; [| lia | lia]. by apply Forall_app.
Qed.

Lemma carried_on_fields this this' :
  _payloadType this' = _payloadType this →
  _extensionEnabled this' = _extensionEnabled this →
  _mtu this' = _mtu this →
  secretkey (_mediaUdp this') = secretkey (_mediaUdp this) →
  nonceSource (_mediaUdp this') = nonceSource (_mediaUdp this) →
  sent (_mediaUdp this') = sent (_mediaUdp this) →
  (noncesTaken (_mediaUdp this) ≤ noncesTaken (_mediaUdp this'))%nat →
  carried_on 0 this this'.
Proof.
  intros. repeat split; try done. exists [].
  rewrite app_nil_r. split; [done|]. split; [constructor|]. simpl. lia.
Qed.

Lemma carried_on_mono m n this this' :
  (m ≤ n)%nat → carried_on m this this' → carried_on n this this'.
Proof.
  intros Hmn (Hp & He & Hm & Hk & Hs & r & Hr & Hf & Hl & Hn).
  repeat split; try done. exists r. repeat split; try done. lia.
Qed.

Lemma perform_carried_on c this :
  carried_on (reportsPossible c) this (perform heap c this).
Proof.
  destruct c as [|incrementBy|now|ssrc isLastPacket|ssrc|bytesSent ssrc];
    unfold perform, reportsPossible.
  - rewrite getNewSequence_eq. by apply carried_on_fields.
  - by apply carried_on_fields.
  - by apply carried_on_fields.
  - rewrite makeRtpHeader_state. by apply carried_on_fields.
  - destruct (makeRtcpSenderReport_effect ssrc this) as [[-> _]| ->];
      apply carried_on_fields; simpl; try done; lia.
  - destruct (onFrameSent_cases bytesSent ssrc this)
      as [[_ ->]|[(_ & e & Hrun & ->)
                 |(_ & report & Hrun & [[Hsend ->]|(e & Hsend & ->)])]];
      simpl snd.
    + apply (carried_on_mono 0); [lia|]. by apply carried_on_fields.
    + apply (carried_on_mono 0); [lia|].
      destruct (makeRtcpSenderReport_effect ssrc
                  (set_totalBytes
                     (Z.rem (_totalBytes this + bytesSent) max_int32bit) this))
        as [[-> _]| ->]; apply carried_on_fields; simpl; try done; lia.
    + apply makeRtcpSenderReport_returned_layout in Hrun
        as (Hlen & Hhead & _).
      destruct (sendPacket_udp report (getNewNonceBuffer (_mediaUdp this)).2)
        as (Hk & Hn & Ht & _ & _ & Hs).
      rewrite Hsend in Hs. simpl in Hk, Hn, Ht, Hs.
      repeat split; simpl; try done. exists [report].
      split; [exact Hs|]. split; [by repeat constructor|].
      simpl. rewrite Ht. lia.
    + apply (carried_on_mono 0); [lia|].
      destruct (sendPacket_udp report (getNewNonceBuffer (_mediaUdp this)).2)
        as (Hk & Hn & Ht & _ & _ & Hs).
      rewrite Hsend in Hs. simpl in Hk, Hn, Ht, Hs.
      apply carried_on_fields; simpl; try done. rewrite Ht. lia.
Qed.

(** X2. Over any sequence of calls, valid or not, returning or throwing,
    a packetizer keeps its payload type, extension flag and MTU, and its
    connection keeps its key and nonce stream; the transport log only
    grows, by sender reports (48 bytes, starting [80 C8 00 06]), at most
    one per call of [onFrameSent], and a nonce was drawn for each. *)
Theorem performAll_carried_on calls this :
  carried_on (length (filter (λ c, reportsPossible c = 1%nat) calls))
             this (performAll heap calls this).
Proof.
  revert this. induction calls as [|c calls IH]; intros this.
  - apply carried_on_refl.
  - unfold performAll. simpl foldl. fold (performAll heap calls (perform heap c this)).
    pose proof (perform_carried_on c this) as Hc.
    pose proof (IH (perform heap c this)) as Hrest.
    pose proof (carried_on_trans _ _ _ _ _ Hc Hrest) as Hall.
    replace (length (filter (λ c, reportsPossible c = 1%nat) (c :: calls)))
      with (reportsPossible c
            + length (filter (λ c, reportsPossible c = 1%nat) calls))%nat;
      [exact Hall|].
    rewrite filter_cons. destruct c; simpl; reflexivity.
Qed.

(** What a valid call does to the three counters. *)
Lemma perform_counters c this :
  valid_call c → counters_ok this →
  _sequence (perform heap c this)
  = (_sequence this + sequencesConsumed c) mod max_int32bit
  ∧ _timestamp (perform heap c this)
    = (_timestamp this + timestampAdvance c) mod max_int32bit
  ∧ _totalBytes (perform heap c this)
    = (_totalBytes this + bytesReported c) mod max_int32bit.
Proof.
  intros Hc [Hs Ht Hb Hp Hm]. unfold u32, max_int32bit in *.
  assert (Hsame : ∀ z, 0 ≤ z < 2 ^ 32 → z = (z + 0) mod 2 ^ 32).
  { intros z Hz. rewrite Z.add_0_r, Z.mod_small; lia. }
  destruct c as [|incrementBy|now|ssrc isLastPacket|ssrc|bytesSent ssrc];
    simpl in Hc; unfold perform, sequencesConsumed, timestampAdvance,
                   bytesReported.
  - rewrite getNewSequence_eq. simpl. unfold max_int32bit.
    rewrite Z.rem_mod_nonneg by lia. auto.
  - simpl. unfold max_int32bit. rewrite Z.rem_mod_nonneg by lia. auto.
  - simpl. auto.
  - rewrite makeRtpHeader_state. simpl. unfold max_int32bit.
    rewrite Z.rem_mod_nonneg by lia. auto.
  - destruct (makeRtcpSenderReport_effect ssrc this) as [[-> _]| ->];
      simpl; auto.
  - destruct (onFrameSent_counters heap bytesSent ssrc this)
      as (Es & Et & Eb & _). rewrite Es, Et, Eb. unfold max_int32bit.
    rewrite Z.rem_mod_nonneg by lia. auto.
Qed.

Lemma performAll_counters calls this :
  Forall valid_call calls → counters_ok this →
  _sequence (performAll heap calls this)
  = (_sequence this + total sequencesConsumed calls) mod max_int32bit
  ∧ _timestamp (performAll heap calls this)
    = (_timestamp this + total timestampAdvance calls) mod max_int32bit
  ∧ _totalBytes (performAll heap calls this)
    = (_totalBytes this + total bytesReported calls) mod max_int32bit.
Proof.
  intros Hvalid. revert this.
  induction Hvalid as [|c calls Hc _ IH]; intros this Hok.
  - destruct Hok as [Hs Ht Hb _ _]. unfold u32 in *. simpl.
    rewrite !Z.add_0_r, !Z.mod_small by done. done.
  - unfold performAll. simpl foldl.
    fold (performAll heap calls (perform heap c this)).
    destruct (IH _ (perform_counters_ok heap c this Hc Hok)) as (Es & Et & Eb).
    destruct (perform_counters c this Hc Hok) as (Es1 & Et1 & Eb1).
    rewrite Es, Et, Eb, Es1, Et1, Eb1. simpl total.
    rewrite !Zplus_mod_idemp_l, !Z.add_assoc. done.
Qed.

Lemma exact_call_valid c : exact_call c → valid_call c.
Proof. destruct c; simpl; unfold exact_step; try done; lia. Qed.

(** X1. From a fresh packetizer, after any sequence of calls whose
    timestamp increments and byte counts are integers between 0 and
    [2^53 - 2^32] (the range in which the code's additions are exact),
    whether the calls returned or threw: the sequence counter is the
    number of [getNewSequence] and [makeRtpHeader] calls, the timestamp
    the sum of the increments, the byte total the sum of the bytes
    reported to [onFrameSent], each modulo 2^32. *)
Theorem counters_account calls connection payloadType extensionEnabled :
  Forall exact_call calls →
  let this :=
    performAll heap calls (constructor connection payloadType extensionEnabled) in
  _sequence this = total sequencesConsumed calls mod 2 ^ 32
  ∧ _timestamp this = total timestampAdvance calls mod 2 ^ 32
  ∧ _totalBytes this = total bytesReported calls mod 2 ^ 32.
Proof.
  intros Hexact this.
  assert (Hvalid : Forall valid_call calls).
  { eapply List.Forall_impl; [|exact Hexact]. apply exact_call_valid. }
  destruct (performAll_counters calls
              (constructor connection payloadType extensionEnabled) Hvalid)
    as (Es & Et & Eb).
  { apply reachable_counters_ok with heap. apply reachable_new. }
  exact (conj Es (conj Et Eb)).
Qed.
End Effects.

(** X1 on a short session: two headers, one timestamp step of 3000, one
    send report of 1200 bytes. *)
Lemma counters_account_witness :
  let this :=
    @performAll plainBox (λ _, 0)
      [MakeRtpHeader 12345 false; MakeRtpHeader 12345 true;
       IncrementTimestamp 3000; OnFrameSent 1200 12345]
      (constructor idleConnection 101 false) in
  _sequence this = 2 ∧ _timestamp this = 3000 ∧ _totalBytes this = 1200.
Proof.
  apply (@counters_account plainBox (λ _, 0)
           [MakeRtpHeader 12345 false; MakeRtpHeader 12345 true;
            IncrementTimestamp 3000; OnFrameSent 1200 12345]
           idleConnection 101 false).
  repeat constructor; unfold exact_step; simpl; lia.
Defined.

(** ** The contents of a sender report *)

Section ReportContents.
Context `{Sodium}.
Variable heap : nat → Z.

Lemma senderInfo_fields this :
  length (senderInfo this) = 20%nat
  ∧ slice (senderInfo this) 8 12 = be_octets 4 (_timestamp this)
  ∧ slice (senderInfo this) 12 16 = be_octets 4 (_sequence this)
  ∧ slice (senderInfo this) 16 20 = be_octets 4 (_totalBytes this).
Proof.
  unfold senderInfo.
  destruct (ntpWords (_lastPacketTime this)) as [[|msw] [|lsw]];
    repeat split.
Qed.

(** The report builder, when it can build: the bytes returned and the
    object left. *)
Lemma makeRtcpSenderReport_built ssrc this :
  u32 ssrc → counters_ok this → udp_ok (_mediaUdp this) →
  clock_encodable (_lastPacketTime this) →
  let nonce := nonceSource (_mediaUdp this) (noncesTaken (_mediaUdp this)) in
  makeRtcpSenderReport heap ssrc this
  = (Normal ([0x80; 0xC8; 0x00; 0x06] ++ be_octets 4 ssrc
             ++ secretbox (senderInfo this) nonce (secretkey (_mediaUdp this))
             ++ take 4 nonce),
     set_mediaUdp (getNewNonceBuffer (_mediaUdp this)).2 this).
Proof.
  intros Hssrc [Hs Ht Hb Hp Hm] [Hkey Hnonce] Hclock nonce.
  assert (Hwords : ∃ msw lsw, ntpWords (_lastPacketTime this) = (msw, lsw)
            ∧ match msw with NaN => True | Int z => u32 z end
            ∧ match lsw with NaN => True | Int z => u32 z end).
  { destruct (_lastPacketTime this) as [t|].
    - rewrite ntpWords_Some. exists (Int (t - ntpEpoch)), (Int 0).
      simpl in Hclock. unfold u32, max_int32bit in *. repeat split; lia.
    - exists NaN, NaN. done. }
  destruct Hwords as (msw & lsw & Hwords & Hmsw & Hlsw).
  unfold senderInfo. rewrite Hwords. simpl fst. simpl snd.
  unfold makeRtcpSenderReport, mbind, M_bind, get, lift, mret, M_ret, modify.
  rewrite Hwords.
  unfold writeUInt32BE.
  rewrite (writeUIntBE_Int ssrc); [| exact Hssrc | simpl; lia].
  cbv iota beta.
  assert (Hwrite : ∀ (v : number) offset buf,
            match v with NaN => True | Int z => u32 z end →
            (offset + 4 ≤ length buf)%nat →
            writeUIntBE v offset 4 buf
            = Normal (list_inserts offset (octets_of 4 v) buf)).
  { intros [|z] offset buf Hv Hfit;
      [by apply writeUIntBE_NaN | by apply writeUIntBE_Int]. }
  rewrite (Hwrite msw) by (done || (simpl; lia)). cbv iota beta.
  rewrite (Hwrite lsw) by (done || (rewrite ?length_inserts; simpl; lia)).
  cbv iota beta.
  rewrite (Hwrite (Int (_timestamp this)))
    by (done || (rewrite ?length_inserts; simpl; lia)).
  cbv iota beta.
  rewrite (Hwrite (Int (_sequence this)))
    by (done || (rewrite ?length_inserts; simpl; lia)).
  cbv iota beta.
  rewrite (Hwrite (Int (_totalBytes this)))
    by (done || (rewrite ?length_inserts; simpl; lia)).
  cbv iota beta.
  change (getNewNonceBuffer (_mediaUdp this))
    with (nonce, (getNewNonceBuffer (_mediaUdp this)).2).
  cbv iota beta. simpl secretkey.
  rewrite crypto_secretbox_easy_returns by (subst nonce; done).
  match goal with
  | |- context [secretbox ?info _ _] =>
      replace info
        with (octets_of 4 msw ++ octets_of 4 lsw
              ++ be_octets 4 (_timestamp this)
              ++ be_octets 4 (_sequence this)
              ++ be_octets 4 (_totalBytes this))
        by (destruct msw, lsw; reflexivity)
  end.
  unfold concat, subarray. rewrite app_nil_r. reflexivity.
Qed.

(** X4. When the report can be built, its bytes are the fixed header, the
    ssrc, the box of the sender info under the nonce just drawn and the
    session key, and the first four bytes of that nonce.  The sender info
    is 20 bytes whose words 2, 3 and 4 are the timestamp, the raw
    (untruncated) sequence counter and the byte total.  Nothing of the
    uninitialised memory the two buffers are allocated from ([heap]) is
    left in the packet. *)
Theorem makeRtcpSenderReport_bytes ssrc this :
  u32 ssrc → counters_ok this → udp_ok (_mediaUdp this) →
  clock_encodable (_lastPacketTime this) →
  let nonce := nonceSource (_mediaUdp this) (noncesTaken (_mediaUdp this)) in
  (makeRtcpSenderReport heap ssrc this).1
  = Normal ([0x80; 0xC8; 0x00; 0x06] ++ be_octets 4 ssrc
            ++ secretbox (senderInfo this) nonce (secretkey (_mediaUdp this))
            ++ take 4 nonce)
  ∧ length (senderInfo this) = 20%nat
  ∧ be_value (slice (senderInfo this) 8 12) = _timestamp this
  ∧ be_value (slice (senderInfo this) 12 16) = _sequence this
  ∧ be_value (slice (senderInfo this) 16 20) = _totalBytes this.
Proof.
  intros Hssrc Hok Hudp Hclock nonce.
  rewrite (makeRtcpSenderReport_built ssrc this Hssrc Hok Hudp Hclock).
  destruct Hok as [Hs Ht Hb Hp Hm].
  destruct (senderInfo_fields this) as (Hlen & -> & -> & ->).
  rewrite !be_value_octets_small by done.
  split; [reflexivity | done].
Qed.
End ReportContents.

(** X4 on a packetizer that has sent 300 packets and 360000 bytes. *)
Lemma makeRtcpSenderReport_bytes_witness :
  let this :=
    set_totalBytes 360000
      (set_sequence 300 (constructor idleConnection 101 false)) in
  (@makeRtcpSenderReport plainBox (λ i, Z.of_nat i) 12345 this).1
  = Normal ([0x80; 0xC8; 0x00; 0x06] ++ be_octets 4 12345
            ++ @secretbox plainBox (senderInfo this) (replicate 24 0)
                 (replicate 32 0)
            ++ [0; 0; 0; 0])
  ∧ be_value (slice (senderInfo this) 12 16) = 300.
Proof.
  intros this.
  destruct (@makeRtcpSenderReport_bytes plainBox (λ i, Z.of_nat i) 12345 this)
    as (Hbytes & _ & _ & Hseq & _).
  - unfold u32, max_int32bit. lia.
  - constructor; unfold u32, max_int32bit; simpl; lia.
  - split; [reflexivity | intros; reflexivity].
  - exact I.
  - split; [exact Hbytes | exact Hseq].
Defined.

(** ** Reports over a run of packets *)

Section Runs.
Context `{Sodium}.
Variable heap : nat → Z.

Lemma packetSent_eq bytesSent ssrc this :
  packetSent heap bytesSent ssrc this
  = onFrameSent heap bytesSent ssrc
      (set_sequence (Z.rem (_sequence this + 1) max_int32bit) this).
Proof. reflexivity. Qed.

(** Sending one more packet after [n]. *)
Lemma packetsSent_snoc bytesSent ssrc n this :
  packetsSent heap (S n) bytesSent ssrc this
  = match packetsSent heap n bytesSent ssrc this with
    | (Normal _, this') => packetSent heap bytesSent ssrc this'
    | (Throw e, this') => (Throw e, this')
    end.
Proof.
  revert this. induction n as [|n IH]; intros this.
  - change (packetsSent heap 1 bytesSent ssrc this)
      with (match packetSent heap bytesSent ssrc this with
            | (Normal _, this1) => (Normal (), this1)
            | (Throw e, this1) => (Throw e, this1)
            end).
    change (packetsSent heap 0 bytesSent ssrc this) with (Normal (), this).
    cbv iota beta.
    by destruct (packetSent heap bytesSent ssrc this) as [[[]|e] this1].
  - change (packetsSent heap (S (S n)) bytesSent ssrc this)
      with (match packetSent heap bytesSent ssrc this with
            | (Normal _, this1) => packetsSent heap (S n) bytesSent ssrc this1
            | (Throw e, this1) => (Throw e, this1)
            end).
    change (packetsSent heap (S n) bytesSent ssrc this)
      with (match packetSent heap bytesSent ssrc this with
            | (Normal _, this1) => packetsSent heap n bytesSent ssrc this1
            | (Throw e, this1) => (Throw e, this1)
            end).
    destruct (packetSent heap bytesSent ssrc this) as [[[]|e] this1];
      [apply IH | reflexivity].
Qed.

Lemma afterPackets_0 connection payloadType extensionEnabled ssrc bytesSent :
  afterPackets connection payloadType extensionEnabled ssrc bytesSent 0
  = constructor connection payloadType extensionEnabled.
Proof.
  unfold afterPackets, constructor. destruct connection. simpl.
  rewrite !Nat.add_0_r, app_nil_r. reflexivity.
Qed.

Lemma packetSent_afterPackets connection payloadType extensionEnabled
    ssrc bytesSent n :
  udp_ok connection → transport_up connection →
  exact_step bytesSent → u32 ssrc →
  packetSent heap bytesSent ssrc
    (afterPackets connection payloadType extensionEnabled ssrc bytesSent n)
  = (Normal (),
     afterPackets connection payloadType extensionEnabled ssrc bytesSent (S n)).
Proof.
  intros [Hkey Hnonce] Hup Hbytes Hssrc.
  set (N := Z.of_nat n).
  set (this := afterPackets connection payloadType extensionEnabled ssrc
                 bytesSent n).
  assert (HN : 0 ≤ N) by (subst N; lia).
  assert (HSn : Z.of_nat (S n) = N + 1) by (subst N; lia).
  assert (Hseq : 0 ≤ N mod 2 ^ 32 < 2 ^ 32) by (apply Z.mod_pos_bound; lia).
  assert (Hseq1 : Z.rem (_sequence this + 1) max_int32bit = (N + 1) mod 2 ^ 32).
  { unfold max_int32bit. simpl _sequence. fold N.
    rewrite Z.rem_mod_nonneg by lia. rewrite Zplus_mod_idemp_l. reflexivity. }
  assert (Htot1 : Z.rem (_totalBytes this + bytesSent) max_int32bit
                  = ((N + 1) * bytesSent) mod 2 ^ 32).
  { unfold max_int32bit, exact_step in *. simpl _totalBytes. fold N.
    pose proof (Z.mod_pos_bound (N * bytesSent) (2 ^ 32) ltac:(lia)).
    rewrite Z.rem_mod_nonneg by lia. rewrite Zplus_mod_idemp_l.
    f_equal. lia. }
  rewrite packetSent_eq, Hseq1, (onFrameSent_eq heap). cbv zeta.
  change (_totalBytes (set_sequence ((N + 1) mod 2 ^ 32) this))
    with (_totalBytes this).
  rewrite Htot1.
  change (_sequence (set_sequence ((N + 1) mod 2 ^ 32) this))
    with ((N + 1) mod 2 ^ 32).
  change (_prevTotalPackets (set_sequence ((N + 1) mod 2 ^ 32) this))
    with (128 * (N mod 2 ^ 32 / 128)).
  set (seq1 := (N + 1) mod 2 ^ 32).
  set (tot1 := ((N + 1) * bytesSent) mod 2 ^ 32).
  assert (Hs1 : 0 ≤ seq1 < 2 ^ 32) by (apply Z.mod_pos_bound; lia).
  assert (Ht1 : 0 ≤ tot1 < 2 ^ 32) by (apply Z.mod_pos_bound; lia).
  set (this1 := set_totalBytes tot1 (set_sequence seq1 this)).
  destruct (decide ((N + 1) mod 128 = 0)) as [Hdue|Hidle].
  - (* the packet count reaches a multiple of 128 *)
    assert (Hcond : ((if 128 * (N mod 2 ^ 32 / 128) >? seq1
                      then seq1 + max_int32bit else seq1) / 2 ^ 7
                     - 128 * (N mod 2 ^ 32 / 128) / 2 ^ 7 >? 0) = true).
    { apply Z.gtb_gt. unfold max_int32bit. subst seq1.
      destruct (Z.gtb_spec (128 * (N mod 2 ^ 32 / 128)) ((N + 1) mod 2 ^ 32));
        change (2 ^ 7) with 128; Z.div_mod_to_equations; lia. }
    rewrite Hcond.
    rewrite (makeRtcpSenderReport_built heap ssrc this1);
      [| exact Hssrc
       | constructor; simpl; unfold u32, max_int32bit; try done;
         Z.div_mod_to_equations; lia
       | split; simpl; done
       | exact I].
    cbv zeta. unfold sendPacket. simpl sendFailure. rewrite Hup.
    assert (Hq : (N + 1) / 128 = N / 128 + 1)
      by (Z.div_mod_to_equations; lia).
    assert (Hr : Z.to_nat (Z.of_nat (S n) / 128)
                 = S (Z.to_nat (Z.of_nat n / 128))).
    { rewrite HSn. fold N. rewrite Hq. pose proof (Z.div_pos N 128). lia. }
    f_equal. unfold afterPackets. rewrite Hr, HSn. fold N. fold seq1.
    fold tot1.
    unfold set_prevTotalPackets, set_mediaUdp, this1, set_totalBytes,
      set_sequence, this, afterPackets.
    cbn [_payloadType _mtu _sequence _timestamp _totalBytes _prevTotalPackets
         _lastPacketTime _mediaUdp _extensionEnabled secretkey nonceSource
         noncesTaken sendFailure sendAttempts sent getNewNonceBuffer snd fst].
    fold N.
    f_equal.
    + subst seq1. Z.div_mod_to_equations. lia.
    + f_equal; [lia | lia |].
      rewrite seq_S, map_app, (app_assoc (sent connection)). f_equal.
      cbn [map Nat.add]. f_equal.
      unfold reportInRun, senderInfo.
      cbn [_lastPacketTime _timestamp _sequence _totalBytes ntpWords fst snd
           octets_of secretkey nonceSource noncesTaken _mediaUdp].
      assert (Hpk : 128 * (Z.of_nat (Z.to_nat (N / 128)) + 1) = N + 1).
      { pose proof (Z.div_pos N 128). rewrite Z2Nat.id by lia.
        Z.div_mod_to_equations. lia. }
      rewrite Hpk. reflexivity.
  - (* no boundary reached *)
    assert (Hcond : ((if 128 * (N mod 2 ^ 32 / 128) >? seq1
                      then seq1 + max_int32bit else seq1) / 2 ^ 7
                     - 128 * (N mod 2 ^ 32 / 128) / 2 ^ 7 >? 0) = false).
    { rewrite Z.gtb_ltb. apply Z.ltb_ge. unfold max_int32bit. subst seq1.
      destruct (Z.gtb_spec (128 * (N mod 2 ^ 32 / 128)) ((N + 1) mod 2 ^ 32));
        change (2 ^ 7) with 128; Z.div_mod_to_equations; lia. }
    rewrite Hcond.
    assert (Hq : (N + 1) / 128 = N / 128) by (Z.div_mod_to_equations; lia).
    assert (Hr : Z.to_nat (Z.of_nat (S n) / 128) = Z.to_nat (Z.of_nat n / 128)).
    { rewrite HSn. fold N. by rewrite Hq. }
    f_equal. unfold afterPackets. rewrite Hr, HSn. fold N. fold seq1.
    fold tot1.
    unfold this1, set_totalBytes, set_sequence, this, afterPackets.
    cbn [_payloadType _mtu _sequence _timestamp _totalBytes _prevTotalPackets
         _lastPacketTime _mediaUdp _extensionEnabled].
    fold N. f_equal.
    subst seq1. Z.div_mod_to_equations. lia.
Qed.

(** X3. On a fresh packetizer whose connection has a 32-byte key, 24-byte
    nonces and a transport that takes every packet, and which never
    records a frame time: sending [n] packets of [bytesSent] bytes
    ([bytesSent] an integer between 0 and [2^53 - 2^32]; each packet a
    sequence number followed by [onFrameSent]) never throws and leaves the
    packetizer described by [afterPackets].  In particular the transport
    has received exactly [floor(n / 128)] new packets, the [k]-th of which
    is the sender report [reportInRun k]: built when the packet count
    reached [128 (k + 1)], carrying that count and the bytes sent so far,
    boxed under the [k]-th nonce drawn. *)
Theorem packetsSent_reports connection payloadType extensionEnabled
    bytesSent ssrc (n : nat) :
  udp_ok connection → transport_up connection →
  exact_step bytesSent → u32 ssrc →
  let run :=
    packetsSent heap n bytesSent ssrc
      (constructor connection payloadType extensionEnabled) in
  run = (Normal (),
         afterPackets connection payloadType extensionEnabled ssrc bytesSent n)
  ∧ _sequence run.2 = Z.of_nat n mod 2 ^ 32
  ∧ _totalBytes run.2 = (Z.of_nat n * bytesSent) mod 2 ^ 32
  ∧ sent (_mediaUdp run.2)
    = sent connection
      ++ map (reportInRun connection ssrc bytesSent)
             (seq 0 (Z.to_nat (Z.of_nat n / 128)))
  ∧ noncesTaken (_mediaUdp run.2)
    = (noncesTaken connection + Z.to_nat (Z.of_nat n / 128))%nat.
Proof.
  intros Hudp Hup Hbytes Hssrc run.
  assert (Hrun : run
            = (Normal (),
               afterPackets connection payloadType extensionEnabled ssrc
                 bytesSent n)).
  { subst run. induction n as [|n IH].
    - by rewrite afterPackets_0.
    - rewrite packetsSent_snoc, IH.
      by apply packetSent_afterPackets. }
  rewrite Hrun. repeat split.
Qed.
End Runs.

(** X3 on 300 packets of 1200 bytes: two reports, the second built at
    packet 256. *)
Lemma packetsSent_reports_witness :
  let run :=
    @packetsSent plainBox (λ _, 0) 300 1200 12345
      (constructor idleConnection 101 false) in
  run.1 = Normal ()
  ∧ sent (_mediaUdp run.2)
    = [@reportInRun plainBox idleConnection 12345 1200 0;
       @reportInRun plainBox idleConnection 12345 1200 1].
Proof.
  intros run.
  destruct (@packetsSent_reports plainBox (λ _, 0) idleConnection 101 false
              1200 12345 300) as (Hrun & _ & _ & Hsent & _).
  - split; [reflexivity | intros; reflexivity].
  - intros k. reflexivity.
  - unfold exact_step. lia.
  - unfold u32, max_int32bit. lia.
  - fold run in Hrun, Hsent. split; [by rewrite Hrun | exact Hsent].
Defined.

(** ** Failing calls *)

Section Failures.
Context `{Sodium}.
Variable heap : nat → Z.

(** X5. When [onFrameSent] throws, it was on a report that was due, and
    the error is either the one the report builder threw (no send was then
    attempted) or, the report built, the one with which the transport
    refused it.  Either way the bytes have been added to the total all the
    same, the transport log has gained nothing, and the last reported
    count is untouched, so that the report is still due on the next
    call.  (The byte total is in range and [bytesSent] an integer between
    0 and [2^53 - 2^32], where the code's addition is exact.) *)
Theorem onFrameSent_throw_safe bytesSent ssrc this e :
  u32 (_totalBytes this) → exact_step bytesSent →
  (onFrameSent heap bytesSent ssrc this).1 = Throw e →
  let this1 :=
    set_totalBytes (Z.rem (_totalBytes this + bytesSent) max_int32bit) this in
  let this' := (onFrameSent heap bytesSent ssrc this).2 in
  fires (_prevTotalPackets this) (_sequence this)
  ∧ (((makeRtcpSenderReport heap ssrc this1).1 = Throw e
      ∧ sendAttempts (_mediaUdp this') = sendAttempts (_mediaUdp this))
     ∨ (∃ report,
          (makeRtcpSenderReport heap ssrc this1).1 = Normal report
          ∧ sendFailure (_mediaUdp this) (sendAttempts (_mediaUdp this))
            = Some e
          ∧ (sendPacket report (getNewNonceBuffer (_mediaUdp this)).2).1
            = Throw e
          ∧ sendAttempts (_mediaUdp this')
            = S (sendAttempts (_mediaUdp this))))
  ∧ _totalBytes this' = Z.rem (_totalBytes this + bytesSent) max_int32bit
  ∧ sent (_mediaUdp this') = sent (_mediaUdp this)
  ∧ _prevTotalPackets this' = _prevTotalPackets this
  ∧ _sequence this' = _sequence this
  ∧ fires (_prevTotalPackets this') (_sequence this').
Proof.
  intros _ _ Hthrow this1 this'. subst this'.
  destruct (onFrameSent_cases heap bytesSent ssrc this)
    as [[_ Hrun]
       |[(Hf & e' & Hbuild & Hrun)
        |(Hf & report & Hbuilt & [[Hsend Hrun]|(e' & Hsend & Hrun)])]];
    fold this1 in Hrun; rewrite Hrun in *; cbn [fst] in Hthrow;
    try discriminate; injection Hthrow as ->; cbn [snd].
  - (* the builder threw *)
    fold this1 in Hbuild.
    split; [exact Hf|]. split; [left; split; [by rewrite Hbuild|]|].
    + destruct (makeRtcpSenderReport_effect heap ssrc this1)
        as [[-> _]| ->]; reflexivity.
    + destruct (makeRtcpSenderReport_effect heap ssrc this1)
        as [[-> _]| ->]; simpl; done.
  - (* the transport refused the report *)
    fold this1 in Hbuilt.
    destruct (sendPacket_udp report (getNewNonceBuffer (_mediaUdp this)).2)
      as (_ & _ & _ & _ & Ha & Hs).
    rewrite Hsend in Hs.
    split; [exact Hf|]. split; [right; exists report|].
    + split; [by rewrite Hbuilt|]. split; [|split; [exact Hsend|exact Ha]].
      revert Hsend. unfold sendPacket. cbn [getNewNonceBuffer snd sendFailure
        sendAttempts].
      destruct (sendFailure (_mediaUdp this) (sendAttempts (_mediaUdp this)));
        cbn [fst]; congruence.
    + split; [reflexivity|]. split; [exact Hs|]. by repeat split.
Qed.

Lemma sequence_u16 this :
  u32 (_sequence this) →
  0 ≤ Z.rem (Z.rem (_sequence this + 1) max_int32bit) max_int16bit < 2 ^ 16.
Proof.
  intros Hs. pose proof (rem_u32 (_sequence this + 1)) as Hrem.
  unfold u32, max_int32bit, max_int16bit in *.
  rewrite (Z.rem_mod_nonneg _ (2 ^ 16)) by lia.
  apply Z.mod_pos_bound. lia.
Qed.

(** The header builder throws as soon as the timestamp or the ssrc does
    not fit its field. *)
Lemma makeRtpHeader_throws ssrc isLastPacket this :
  u32 (_sequence this) → ¬ (u32 ssrc ∧ u32 (_timestamp this)) →
  (makeRtpHeader ssrc isLastPacket this).1 = Throw (RangeError "value").
Proof.
  intros Hs Hno. pose proof (sequence_u16 this Hs) as Hseq.
  unfold makeRtpHeader, mbind, M_bind, get, lift, mret, M_ret.
  rewrite getNewSequence_eq. cbv iota beta.
  rewrite writeUIntBE_Int; [| exact Hseq | destruct isLastPacket; simpl; lia].
  cbv iota beta. simpl _timestamp.
  destruct (decide (u32 (_timestamp this))) as [Ht|Ht].
  - rewrite writeUIntBE_Int; [| exact Ht | destruct isLastPacket; simpl; lia].
    cbv iota beta. rewrite writeUIntBE_out_of_range; [done|].
    assert (Hc : ¬ u32 ssrc) by tauto.
    unfold u32, max_int32bit in Hc. simpl. lia.
  - rewrite writeUIntBE_out_of_range; [done|].
    unfold u32, max_int32bit in Ht. simpl. lia.
Qed.

(** X6. For an integer ssrc and an integer timestamp, and with the
    sequence counter in range, [makeRtpHeader] returns a header iff the
    ssrc and the timestamp are unsigned 32-bit values; if not it throws a
    [RangeError].  Either way the call has consumed a sequence number.
    (The counters of the model are integers: a NaN or a fractional ssrc
    or timestamp, which Node writes without a range error, is outside
    this statement.) *)
Theorem makeRtpHeader_returns_iff ssrc isLastPacket this :
  u32 (_sequence this) →
  ((∃ header, (makeRtpHeader ssrc isLastPacket this).1 = Normal header)
   ↔ u32 ssrc ∧ u32 (_timestamp this))
  ∧ (¬ (u32 ssrc ∧ u32 (_timestamp this)) →
     (makeRtpHeader ssrc isLastPacket this).1 = Throw (RangeError "value"))
  ∧ _sequence (makeRtpHeader ssrc isLastPacket this).2
    = (_sequence this + 1) mod 2 ^ 32.
Proof.
  intros Hs. pose proof (sequence_u16 this Hs) as Hseq.
  split; [|split].
  - split.
    + intros [header Hh].
      destruct (decide (u32 ssrc ∧ u32 (_timestamp this))) as [Hok|Hno];
        [exact Hok|].
      rewrite (makeRtpHeader_throws ssrc isLastPacket this Hs Hno) in Hh.
      discriminate.
    + intros [Hc Ht].
      unfold makeRtpHeader, mbind, M_bind, get, lift, mret, M_ret.
      rewrite getNewSequence_eq. cbv iota beta.
      rewrite writeUIntBE_Int;
        [| exact Hseq | destruct isLastPacket; simpl; lia].
      cbv iota beta. simpl _timestamp.
      rewrite writeUIntBE_Int; [| exact Ht | destruct isLastPacket; simpl; lia].
      cbv iota beta.
      rewrite writeUIntBE_Int; [| exact Hc | destruct isLastPacket; simpl; lia].
      eexists. reflexivity.
  - by apply makeRtpHeader_throws.
  - rewrite makeRtpHeader_state. simpl.
    unfold u32, max_int32bit in *. apply Z.rem_mod_nonneg; lia.
Qed.

(** X7. [incrementTimestamp] does not wrap a decrement into range: an
    increment that takes the timestamp below zero (by less than 2^32)
    leaves it negative, and [makeRtpHeader] then throws. *)
Theorem incrementTimestamp_negative incrementBy ssrc isLastPacket this :
  u32 (_sequence this) →
  - max_int32bit < _timestamp this + incrementBy < 0 →
  let this' := (incrementTimestamp incrementBy this).2 in
  _timestamp this' = _timestamp this + incrementBy
  ∧ (makeRtpHeader ssrc isLastPacket this').1 = Throw (RangeError "value").
Proof.
  intros Hs Hneg this'.
  assert (Hts : _timestamp this' = _timestamp this + incrementBy).
  { subst this'. rewrite incrementTimestamp_eq. simpl.
    unfold max_int32bit in *.
    rewrite <- (Z.opp_involutive (_timestamp this + incrementBy)).
    rewrite Z.rem_opp_l by lia. rewrite Z.rem_small by lia. lia. }
  split; [exact Hts|].
  apply (makeRtpHeader_throws ssrc isLastPacket this' Hs).
  intros [_ Ht]. unfold u32 in Ht. lia.
Qed.
End Failures.

(** X5 at a due report, first with an ssrc out of range, then with a
    transport that refuses the packet. *)
Lemma onFrameSent_throw_safe_witness :
  let this := set_sequence 128 (constructor idleConnection 101 false) in
  let this' := (@onFrameSent plainBox (λ _, 0) 1200 (-1) this).2 in
  let refusing :=
    {| secretkey := replicate 32 0; nonceSource := λ _, replicate 24 0;
       noncesTaken := 0; sendFailure := λ _, Some (Error "socket closed");
       sendAttempts := 0; sent := [] |} in
  let that := set_sequence 128 (constructor refusing 101 false) in
  let that' := (@onFrameSent plainBox (λ _, 0) 1200 12345 that).2 in
  (_totalBytes this' = 1200 ∧ sent (_mediaUdp this') = []
   ∧ _prevTotalPackets this' = 0)
  ∧ (_totalBytes that' = 1200 ∧ sent (_mediaUdp that') = []
     ∧ sendAttempts (_mediaUdp that') = 1%nat
     ∧ _prevTotalPackets that' = 0).
Proof.
  intros this this' refusing that that'. split.
  - destruct (@onFrameSent_throw_safe plainBox (λ _, 0) 1200 (-1) this
                (RangeError "value"))
      as (_ & _ & Hbytes & Hsent & Hprev & _).
    + unfold u32, max_int32bit. simpl. lia.
    + unfold exact_step. lia.
    + reflexivity.
    + split; [exact Hbytes|]. split; [exact Hsent | exact Hprev].
  - destruct (@onFrameSent_throw_safe plainBox (λ _, 0) 1200 12345 that
                (Error "socket closed"))
      as (_ & Hwhich & Hbytes & Hsent & Hprev & _).
    + unfold u32, max_int32bit. simpl. lia.
    + unfold exact_step. lia.
    + reflexivity.
    + split; [exact Hbytes|]. split; [exact Hsent|].
      split; [|exact Hprev].
      destruct Hwhich as [[Hbuild _]|(report & _ & _ & _ & Hattempts)];
        [vm_compute in Hbuild; discriminate | exact Hattempts].
Defined.

(** X6 on a fresh packetizer: ssrc 2^32 is refused. *)
Lemma makeRtpHeader_returns_iff_witness :
  (makeRtpHeader (2 ^ 32) true (constructor idleConnection 101 false)).1
  = Throw (RangeError "value").
Proof.
  destruct (makeRtpHeader_returns_iff (2 ^ 32) true
              (constructor idleConnection 101 false))
    as (_ & Hthrow & _).
  - unfold u32, max_int32bit. simpl. lia.
  - apply Hthrow. intros [Hc _]. unfold u32, max_int32bit in Hc. lia.
Defined.

(** X7 on a fresh packetizer: a step of -3000. *)
Lemma incrementTimestamp_negative_witness :
  let this' := (incrementTimestamp (-3000)
                  (constructor idleConnection 101 false)).2 in
  _timestamp this' = -3000
  ∧ (makeRtpHeader 12345 true this').1 = Throw (RangeError "value").
Proof.
  apply (incrementTimestamp_negative (-3000) 12345 true
           (constructor idleConnection 101 false)).
  - unfold u32, max_int32bit. simpl. lia.
  - unfold max_int32bit. simpl. lia.
Defined.

(** ** The chunks, one by one *)

Lemma take_min_length {A} (l : list A) n :
  take (Nat.min (length l) n) l = take n l.
Proof.
  destruct (decide (length l ≤ n)%nat).
  - rewrite Nat.min_l by done. by rewrite !take_ge by lia.
  - f_equal. lia.
Qed.

Lemma partition_loop_chunks {A} (data : list A) mtu :
  (0 < mtu)%nat →
  ∀ fuel i len out,
    (len ≤ fuel)%nat → (i + len = length data)%nat →
    ∃ chunks,
      partition_loop fuel data mtu i len out = Some (out ++ chunks)
      ∧ ∀ k, chunks !! k
             = if decide (k * mtu < len)%nat
               then Some (take mtu (drop (i + k * mtu) data)) else None.
Proof.
  intros Hmtu. induction fuel as [|fuel IH]; intros i len out Hfuel Hlen.
  - assert (len = 0%nat) as -> by lia. exists [].
    split; [by rewrite app_nil_r|]. intros k.
    rewrite lookup_nil. case_decide; [lia | done].
  - destruct len as [|len'].
    + exists []. split; [by rewrite app_nil_r|]. intros k.
      rewrite lookup_nil. case_decide; [lia | done].
    + set (len := S len') in *.
      set (size := Nat.min len mtu).
      destruct (IH (i + size)%nat (len - size)%nat
                   (out ++ [slice data i (i + size)]))
        as (chunks & Hrun & Hlook); [lia | lia |].
      exists (slice data i (i + size) :: chunks). split.
      * change (partition_loop (S fuel) data mtu i len out)
          with (partition_loop fuel data mtu (i + size) (len - size)
                  (out ++ [slice data i (i + size)])).
        rewrite Hrun, <- app_assoc. reflexivity.
      * intros [|k].
        -- change ((slice data i (i + size) :: chunks) !! 0%nat)
             with (Some (slice data i (i + size))).
           case_decide; [|lia].
           change (0 * mtu)%nat with 0%nat.
           rewrite slice_take_drop, Nat.add_0_r. f_equal. subst size.
           replace len with (length (drop i data))
             by (rewrite length_drop; lia).
           apply take_min_length.
        -- simpl lookup. rewrite Hlook.
           change (S k * mtu)%nat with (mtu + k * mtu)%nat.
           destruct (decide (k * mtu < len - size)%nat) as [Hk|Hk];
             destruct (decide (mtu + k * mtu < len)%nat) as [Hk'|Hk'];
             try done; try (subst size; lia).
           do 3 f_equal. subst size. lia.
Qed.

Section Chunks.
Context `{Sodium}.
Variable heap : nat → Z.

(** X8. On a reachable packetizer the chunker returns
    [ceil(length data / 1200)] chunks, and chunk [k] is the input from
    byte [1200 k] on, cut at 1200 bytes; no chunk is empty. *)
Theorem partitionDataMTUSizedChunks_chunks {A} (this : BaseMediaPacketizer)
    (data : list A) :
  reachable heap this →
  ∃ chunks,
    partitionDataMTUSizedChunks this data = Some chunks
    ∧ length chunks = ((length data + 1199) / 1200)%nat
    ∧ (∀ k, (k < length chunks)%nat →
            chunks !! k = Some (take 1200 (drop (1200 * k) data)))
    ∧ Forall (λ c, c ≠ []) chunks.
Proof.
  intros Hreach.
  pose proof (mtu_1200 _ (reachable_counters_ok heap _ Hreach)) as Hmtu.
  destruct (partition_loop_chunks data 1200 ltac:(lia) (length data) 0%nat
              (length data) [] ltac:(lia) ltac:(lia))
    as (chunks & Hrun & Hlook).
  exists chunks. unfold partitionDataMTUSizedChunks. rewrite Hmtu.
  split; [exact Hrun|].
  pose proof (Nat.div_mod (length data + 1199) 1200 ltac:(lia)) as Hdiv.
  pose proof (Nat.mod_upper_bound (length data + 1199) 1200 ltac:(lia)) as Hrem.
  set (count := ((length data + 1199) / 1200)%nat) in *.
  assert (Hin : ∀ k, (k < length chunks)%nat ↔ (k * 1200 < length data)%nat).
  { intros k. rewrite <- lookup_lt_is_Some, Hlook.
    case_decide; split; intros Hk; try done; try lia;
      try (by eexists); by destruct Hk. }
  assert (Hcount : length chunks = count).
  { destruct (Nat.lt_trichotomy (length chunks) count) as [Hlt|[Heq|Hgt]];
      [|done|].
    - assert ((length chunks < length chunks)%nat); [|lia].
      apply Hin. lia.
    - assert ((count * 1200 < length data)%nat); [|lia].
      apply Hin. lia. }
  split; [exact Hcount|]. split.
  - intros k Hk. rewrite Hlook. apply Hin in Hk.
    case_decide; [|lia]. do 3 f_equal. lia.
  - apply Forall_lookup. intros k c Hc.
    assert (Hk : (k < length chunks)%nat) by (by eapply lookup_lt_Some).
    apply Hin in Hk. rewrite Hlook in Hc.
    case_decide; [|lia]. injection Hc as <-.
    intros Hnil. apply (f_equal length) in Hnil.
    rewrite length_take, length_drop in Hnil.
    change (length (@nil A)) with 0%nat in Hnil. lia.
Qed.
End Chunks.

(** X8 on 2500 bytes: three chunks, the last from byte 2400. *)
Lemma partitionDataMTUSizedChunks_chunks_witness :
  ∃ chunks,
    partitionDataMTUSizedChunks (constructor idleConnection 101 false)
                                (replicate 2500 0)
    = Some chunks
    ∧ length chunks = 3%nat
    ∧ chunks !! 2%nat = Some (replicate 100 0).
Proof.
  destruct (@partitionDataMTUSizedChunks_chunks plainBox (λ _, 0) Z
              (constructor idleConnection 101 false) (replicate 2500 0)
              (reachable_new (λ _, 0) idleConnection 101 false))
    as (chunks & Hrun & Hlen & Hk & _).
  exists chunks. split; [exact Hrun|]. split; [exact Hlen|].
  rewrite Hk by (rewrite Hlen; vm_compute; lia). reflexivity.
Defined.

(** ** Codec names, case and acceptance *)

Lemma test_i_mentions r codec : test_i r codec = true ↔ mentions (words r) codec.
Proof. apply test_i_occurs. Qed.

Lemma normalizeVideoCodec_toUpperCase codec :
  codec ≠ "h264_mediacodec"%string → codec ≠ "hevc_mediacodec"%string →
  ∀ v, normalizeVideoCodec (toUpperCase codec) = Normal v
       ↔ normalizeVideoCodec codec = Normal v.
Proof.
  intros H1 H2 v. unfold normalizeVideoCodec.
  apply String.eqb_neq in H1, H2. rewrite H1, H2.
  rewrite !toUpperCase_neq_lower by discriminate.
  rewrite !test_i_toUpperCase, toUpperCase_idem. simpl orb. cbv iota.
  destruct (test_i re_h264 codec); [done|].
  destruct (test_i re_h265 codec); [done|].
  destruct (test_i re_vp codec); [done|].
  destruct (test_i re_av1 codec); [done|].
  split; discriminate.
Qed.

(** X9. Apart from the two MediaCodec names, which are matched verbatim,
    [normalizeVideoCodec] ignores case: two names that differ only in the
    case of their letters are normalized to the same codec, or both
    refused.  The MediaCodec names themselves are case-sensitive: in upper
    case they are taken for plain H264 and H265. *)
Theorem normalizeVideoCodec_ignores_case :
  (∀ codec codec',
      toUpperCase codec = toUpperCase codec' →
      codec ≠ "h264_mediacodec"%string → codec ≠ "hevc_mediacodec"%string →
      codec' ≠ "h264_mediacodec"%string → codec' ≠ "hevc_mediacodec"%string →
      ∀ v, normalizeVideoCodec codec = Normal v
           ↔ normalizeVideoCodec codec' = Normal v)
  ∧ normalizeVideoCodec (toUpperCase "h264_mediacodec") = Normal "H264"%string
  ∧ normalizeVideoCodec (toUpperCase "hevc_mediacodec") = Normal "H265"%string.
Proof.
  split; [|split; reflexivity].
  intros codec codec' Hcase H1 H2 H1' H2' v.
  rewrite <- (normalizeVideoCodec_toUpperCase codec H1 H2).
  rewrite <- (normalizeVideoCodec_toUpperCase codec' H1' H2').
  by rewrite Hcase.
Qed.

(** X9 on "Vp8" and "vP8". *)
Lemma normalizeVideoCodec_ignores_case_witness :
  normalizeVideoCodec "Vp8" = Normal "VP8"%string
  ↔ normalizeVideoCodec "vP8" = Normal "VP8"%string.
Proof.
  apply (proj1 normalizeVideoCodec_ignores_case "Vp8" "vP8")%string;
    [reflexivity | discriminate..].
Defined.

Lemma upper_test_i r codec w :
  toUpperCase codec = w → test_i r codec = test_i r w.
Proof. intros <-. symmetry. apply test_i_toUpperCase. Qed.

Lemma videoOutputFor_upper codec :
  test_i re_h264 codec = false → test_i re_h265 codec = false →
  videoOutputFor (toUpperCase codec)
  = if String.eqb (toUpperCase codec) "VP8" then Normal NewIvfTransformer
    else Throw (Error "Codec not supported").
Proof.
  intros E1 E2. unfold videoOutputFor.
  rewrite (toUpperCase_neq_lower codec "h264_mediacodec") by discriminate.
  rewrite (toUpperCase_neq_lower codec "hevc_mediacodec") by discriminate.
  destruct (String.eqb_spec (toUpperCase codec) "H264") as [Hup|_].
  { rewrite (upper_test_i re_h264 codec _ Hup) in E1. discriminate. }
  destruct (String.eqb_spec (toUpperCase codec) "H265") as [Hup|_].
  { rewrite (upper_test_i re_h265 codec _ Hup) in E2. discriminate. }
  reflexivity.
Qed.

(** X10. The codec check of [streamLivestreamVideo] lets a stream start
    exactly for: the two MediaCodec names verbatim; any name mentioning
    H264, H.264, AVC, H265, H.265 or HEVC; and the name VP8 itself, in any
    case.  Every other name, among them VP9, AV1 and longer names that
    merely contain VP8, is rejected. *)
Theorem streamLivestreamVideo_accepts codec includeAudio :
  (streamLivestreamVideo codec includeAudio).1 = Pending
  ↔ codec = "h264_mediacodec"%string ∨ codec = "hevc_mediacodec"%string
    ∨ mentions ["H264"; "H.264"; "AVC"]%string codec
    ∨ mentions ["H265"; "H.265"; "HEVC"]%string codec
    ∨ toUpperCase codec = "VP8"%string.
Proof.
  change ["H264"; "H.264"; "AVC"]%string with (words re_h264).
  change ["H265"; "H.265"; "HEVC"]%string with (words re_h265).
  rewrite <- !test_i_mentions.
  unfold streamLivestreamVideo, normalizeVideoCodec.
  destruct (String.eqb_spec codec "h264_mediacodec") as [->|H1];
    [simpl; tauto|].
  destruct (String.eqb_spec codec "hevc_mediacodec") as [->|H2];
    [simpl; tauto|].
  simpl orb. cbv iota.
  destruct (test_i re_h264 codec) eqn:E1; [simpl; tauto|].
  destruct (test_i re_h265 codec) eqn:E2; [simpl; tauto|].
  assert (Hvp8 : toUpperCase codec = "VP8"%string → test_i re_vp codec = true).
  { intros Hup. by rewrite (upper_test_i re_vp codec _ Hup). }
  destruct (test_i re_vp codec) eqn:E3.
  - rewrite (videoOutputFor_upper codec E1 E2).
    destruct (String.eqb_spec (toUpperCase codec) "VP8") as [Hup|Hup];
      simpl; split; auto; try discriminate.
    intros [?|[?|[?|[?|?]]]]; done.
  - assert (Hno : toUpperCase codec ≠ "VP8"%string).
    { intros Hup. apply Hvp8 in Hup. discriminate. }
    destruct (test_i re_av1 codec); simpl; split; try discriminate;
      intros [?|[?|[?|[?|?]]]]; done.
Qed.

(** X10 on "vp8": accepted. *)
Lemma streamLivestreamVideo_accepts_witness :
  (streamLivestreamVideo "vp8" true).1 = Pending.
Proof.
  apply (proj2 (streamLivestreamVideo_accepts "vp8" true)).
  right. right. right. right. reflexivity.
Defined.

(** X11. When the codec check lets the stream start, the executor builds,
    in this order: the [VideoStream], the splitter, the ffmpeg video
    output, the pipe into the stream, the audio output iff [includeAudio],
    and then runs the command.  The splitter is the H.264 one for a name
    mentioning H264, H.264 or AVC, else the H.265 one for a name mentioning
    H265, H.265 or HEVC, else the IVF transformer; the output format is
    the MediaCodec name itself for the two verbatim names, else [H264],
    [hevc] or [ivf] accordingly. *)
Theorem streamLivestreamVideo_pipeline codec includeAudio :
  (streamLivestreamVideo codec includeAudio).1 = Pending →
  let h264 := test_i re_h264 codec in
  let h265 := test_i re_h265 codec in
  let splitter :=
    if h264 then NewH264NalSplitter
    else if h265 then NewH265NalSplitter else NewIvfTransformer in
  let format :=
    if String.eqb codec "h264_mediacodec" || String.eqb codec "hevc_mediacodec"
    then codec
    else if h264 then "H264"%string
    else if h265 then "hevc"%string else "ivf"%string in
  (streamLivestreamVideo codec includeAudio).2
  = [NewVideoStream; splitter; VideoOutput format; PipeVideo]
    ++ (if includeAudio then [AudioOutput] else []) ++ [CommandRun].
Proof.
  unfold streamLivestreamVideo, normalizeVideoCodec.
  destruct (String.eqb_spec codec "h264_mediacodec") as [->|H1];
    [intros _; reflexivity|].
  destruct (String.eqb_spec codec "hevc_mediacodec") as [->|H2];
    [intros _; reflexivity|].
  simpl orb. cbv iota.
  destruct (test_i re_h264 codec) eqn:E1; [intros _; reflexivity|].
  destruct (test_i re_h265 codec) eqn:E2; [intros _; reflexivity|].
  destruct (test_i re_vp codec) eqn:E3.
  - rewrite (videoOutputFor_upper codec E1 E2).
    destruct (String.eqb_spec (toUpperCase codec) "VP8") as [Hup|Hup];
      [|discriminate].
    intros _. rewrite Hup. reflexivity.
  - destruct (test_i re_av1 codec); discriminate.
Qed.

(** X11 on "libx265-hevc" without audio. *)
Lemma streamLivestreamVideo_pipeline_witness :
  (streamLivestreamVideo "libx265-hevc" false).2
  = [NewVideoStream; NewH265NalSplitter; VideoOutput "hevc"; PipeVideo;
     CommandRun].
Proof.
  apply (streamLivestreamVideo_pipeline "libx265-hevc" false).
  vm_compute. reflexivity.
Defined.
